(** * AgDash: the county-statistics fetch, merge and clean pipeline

  A shallow embedding of [scripts/fetch_ag_data_robust.py] and of the
  disclosure reconciler exercised by [scripts/test_enhanced_script.py].

  Conventions of the embedding.
  - A Python [str] is a [string]; text operations work on its characters.
  - A float64 cell is an exact decimal number [mant / 10 ^ scale]; the
    rounding of binary floating point is outside the model.  [NaN], the
    absent value of pandas, is [None] for a cleaned value and [CNaN] for a
    raw cell.
  - A pandas [DataFrame] with the three key columns and named metric
    columns is a list of rows, each a key and a finite map from column name
    to cell. *)

From Stdlib Require Import ZArith Lia Ascii String.
From stdpp Require Import gmap strings list sorting.

(** ** Text operations used by the cleaner *)

Module Text.

(** [str.isspace] restricted to the ASCII range: TAB..CR, FS..US, space. *)
Definition is_space (c : ascii) : bool :=
  let n := nat_of_ascii c in
  ((9 <=? n) && (n <=? 13)) || ((28 <=? n) && (n <=? 32)).

Fixpoint lstrip (l : list ascii) : list ascii :=
  match l with
  | [] => []
  | c :: l' => if is_space c then lstrip l' else l
  end.

Definition rstrip (l : list ascii) : list ascii := rev (lstrip (rev l)).

(** [s.strip()] *)
Definition strip_chars (l : list ascii) : list ascii := rstrip (lstrip l).

Definition is_comma (c : ascii) : bool := bool_decide (c = ","%char).

(** [s.replace(",", "")] *)
Fixpoint remove_commas (l : list ascii) : list ascii :=
  match l with
  | [] => []
  | c :: l' => if is_comma c then remove_commas l' else c :: remove_commas l'
  end.

Definition strip (s : string) : string :=
  string_of_list_ascii (strip_chars (list_ascii_of_string s)).

Definition replace_commas (s : string) : string :=
  string_of_list_ascii (remove_commas (list_ascii_of_string s)).

(** A character the two text steps of the cleaner leave alone. *)
Definition plain_char (c : ascii) : Prop :=
  is_space c = false ∧ is_comma c = false.

End Text.

(** ** Numbers: exact decimals, their parser and their printer *)

Module Numeric.
Local Open Scope Z_scope.

(** The value [mant / 10 ^ scale]. *)
Record decimal : Type := Dec { mant : Z; scale : nat }.

Global Instance decimal_eq_dec : EqDecision decimal.
Proof. solve_decision. Defined.

(** Canonical form: no trailing zero in the fractional digits. *)
Fixpoint dec_norm_go (m : Z) (s : nat) : decimal :=
  match s with
  | O => Dec m O
  | S s' => if m mod 10 =? 0 then dec_norm_go (m / 10) s' else Dec m s
  end.

Definition dec_norm (d : decimal) : decimal := dec_norm_go (mant d) (scale d).

Definition dec_wf (d : decimal) : Prop := scale d = O ∨ mant d mod 10 ≠ 0.

Definition dec_zero : decimal := Dec 0 0.
Definition dec_of_Z (z : Z) : decimal := Dec z 0.
Definition dec_neg (d : decimal) : decimal := Dec (- mant d) (scale d).

Definition dec_add (a b : decimal) : decimal :=
  let s := Nat.max (scale a) (scale b) in
  dec_norm (Dec (mant a * 10 ^ Z.of_nat (s - scale a)
                 + mant b * 10 ^ Z.of_nat (s - scale b)) s).

(** [a > b] on decimals, by cross-scaling. *)
Definition dec_ltb (a b : decimal) : bool :=
  let s := Nat.max (scale a) (scale b) in
  mant a * 10 ^ Z.of_nat (s - scale a) <? mant b * 10 ^ Z.of_nat (s - scale b).

(** *** Digits *)

Definition digit_of_char (c : ascii) : option Z :=
  let n := Z.of_nat (nat_of_ascii c) in
  if (48 <=? n) && (n <=? 57) then Some (n - 48) else None.

Definition char_of_digit (d : Z) : ascii := ascii_of_nat (Z.to_nat (48 + d)).

Fixpoint digits_value (acc : Z) (l : list ascii) : option Z :=
  match l with
  | [] => Some acc
  | c :: l' =>
      match digit_of_char c with
      | Some d => digits_value (acc * 10 + d) l'
      | None => None
      end
  end.

(** *** The parser: the plain decimal literals [[+-]digits[.digits]],
    with at least one digit, that [pd.to_numeric] reads; everything else
    is a parse failure.  Exponent forms and the words "inf"/"nan" are not
    numbers of this model ("nan" parses to the absent value either way). *)

Definition is_dot (c : ascii) : bool := bool_decide (c = "."%char).

Fixpoint split_dot (l : list ascii) : list ascii * option (list ascii) :=
  match l with
  | [] => ([], None)
  | c :: l' =>
      if is_dot c then ([], Some l')
      else let '(i, f) := split_dot l' in (c :: i, f)
  end.

Definition parse_unsigned (l : list ascii) : option decimal :=
  let '(i, fo) := split_dot l in
  let f := default [] fo in
  match i ++ f with
  | [] => None
  | ds => m ← digits_value 0 ds; Some (Dec m (length f))
  end.

Definition parse_signed (l : list ascii) : option decimal :=
  match l with
  | c :: r =>
      if bool_decide (c = "-"%char) then dec_neg <$> parse_unsigned r
      else if bool_decide (c = "+"%char) then parse_unsigned r
      else parse_unsigned l
  | [] => None
  end.

(** Scalar [pd.to_numeric(s, errors='coerce')]: [None] is NaN. *)
Definition to_numeric (s : string) : option decimal :=
  dec_norm <$> parse_signed (list_ascii_of_string s).

(** *** The printer: [str(x)] for an integer and for a float *)

Fixpoint digits_fuel (fuel : nat) (n : Z) (acc : list ascii) : list ascii :=
  match fuel with
  | O => acc
  | S k =>
      let acc' := char_of_digit (n mod 10) :: acc in
      if n <? 10 then acc' else digits_fuel k (n / 10) acc'
  end.

Definition digits_of (n : Z) : list ascii :=
  digits_fuel (S (Z.to_nat (Z.log2 n))) n [].

(** Exactly [s] digits of [r], most significant first. *)
Fixpoint fixed_digits (s : nat) (r : Z) (acc : list ascii) : list ascii :=
  match s with
  | O => acc
  | S k => fixed_digits k (r / 10) (char_of_digit (r mod 10) :: acc)
  end.

Definition sign_chars (m : Z) : list ascii :=
  if m <? 0 then ["-"%char] else [].

Definition render_int (z : Z) : list ascii :=
  sign_chars z ++ digits_of (Z.abs z).

Definition render_float (d : decimal) : list ascii :=
  let p := 10 ^ Z.of_nat (scale d) in
  let a := Z.abs (mant d) in
  sign_chars (mant d) ++ digits_of (a / p) ++ "."%char ::
    match scale d with
    | O => ["0"%char]
    | s => fixed_digits s (a mod p) []
    end.

Definition str_of_int (z : Z) : string := string_of_list_ascii (render_int z).
Definition str_of_float (d : decimal) : string :=
  string_of_list_ascii (render_float d).

(** A list of decimal digit characters. *)
Definition all_digits (l : list ascii) : Prop :=
  Forall (λ c, ∃ d, 0 <= d <= 9 ∧ c = char_of_digit d) l.

End Numeric.

(** ** Data frames keyed by (state_name, county_name, year) *)

Module Frame.
Import Numeric.

(** The join key of every table. *)
Record key : Type := Key { state_name : string; county_name : string; year : Z }.

Global Instance key_eq_dec : EqDecision key.
Proof. solve_decision. Defined.

(** One cell of a value column: NaN, a Python [str], or a number of an
    int64 or float64 column. *)
Inductive cell : Type :=
| CNaN
| CStr (s : string)
| CInt (z : Z)
| CFloat (d : decimal).

Global Instance cell_eq_dec : EqDecision cell.
Proof. solve_decision. Defined.

(** A per-metric table as [fetch_metric_multistate] returns it: the three
    key columns and the column [Value]. *)
Definition table : Type := list (key * cell).

(** A row of a frame with named value columns. *)
Definition row : Type := key * gmap string cell.

(** [columns] lists the value columns (the key columns are implicit). *)
Record frame : Type := Frame { columns : list string; rows : list row }.

Definition keys_of (rs : list row) : list key := rs.*1.

(** [df.rename(columns={"Value": col})] on a per-metric table. *)
Definition rename_value (col : string) (t : table) : frame :=
  Frame [col] ((λ kv : key * cell, (kv.1, {[ col := kv.2 ]})) <$> t).

(** *** The outer join of [pd.merge(left, right, on=keys, how="outer")] *)

Definition key_compare (a b : key) : comparison :=
  match String.compare (state_name a) (state_name b) with
  | Eq =>
      match String.compare (county_name a) (county_name b) with
      | Eq => Z.compare (year a) (year b)
      | c => c
      end
  | c => c
  end.

Definition row_le (a b : row) : Prop := key_compare a.1 b.1 ≠ Gt.

Global Instance row_le_dec : RelDecision row_le.
Proof. intros a b. unfold row_le. apply _. Defined.

Definition nan_row (cols : list string) : gmap string cell :=
  list_to_map ((λ c, (c, CNaN)) <$> cols).

Definition matching (k : key) (rs : list row) : list row :=
  filter (λ r : row, r.1 = k) rs.

(** The rows a left row contributes: one per matching right row, or the
    left row padded with NaN when nothing matches. *)
Definition join_left (R : frame) (l : row) : list row :=
  match matching l.1 (rows R) with
  | [] => [(l.1, l.2 ∪ nan_row (columns R))]
  | ms => (λ r : row, (l.1, l.2 ∪ r.2)) <$> ms
  end.

(** The right rows whose key no left row has, padded with NaN. *)
Definition join_right_only (L R : frame) : list row :=
  (λ r : row, (r.1, nan_row (columns L) ∪ r.2)) <$>
    filter (λ r : row, matching r.1 (rows L) = []) (rows R).

(** The value columns of the two frames are disjoint in every use (each
    frame carries its own metric column); pandas sorts the result of an
    outer join by key. *)
Definition merge_outer (L R : frame) : frame :=
  Frame (columns L ++ columns R)
        (merge_sort row_le ((rows L ≫= join_left R) ++ join_right_only L R)).

(** [functools.reduce(f, frames)] without initial value: [None] is the
    TypeError on the empty sequence. *)
Definition reduce_merge (frames : list frame) : option frame :=
  match frames with
  | [] => None
  | f :: fs => Some (foldl merge_outer f fs)
  end.

(** *** Vocabulary for the properties of the merge *)

(** How many rows carry the key [k]. *)
Definition count_key (k : key) (rs : list row) : nat := length (matching k rs).

(** A per-metric table together with the name of its metric. *)
Definition named_table : Type := string * table.

Definition to_frame (nt : named_table) : frame := rename_value nt.1 nt.2.

Definition table_keys (t : table) : list key := t.*1.

(** The cell a table offers for a key: one of its values for that key, or
    NaN when the table has no row for the key. *)
Definition selects (t : table) (k : key) (v : cell) : Prop :=
  (k, v) ∈ t ∨ ((k ∉ table_keys t) ∧ v = CNaN).

(** The rows an order-independent reading of the merge allows: the key
    occurs in some table, the row has exactly the metric columns, and
    every column holds a cell its table offers for the key. *)
Definition merged_row (ts : list named_table) (x : row) : Prop :=
  (∃ nt, nt ∈ ts ∧ x.1 ∈ table_keys nt.2)
  ∧ (∀ c, c ∉ ts.*1 → x.2 !! c = None)
  ∧ (∀ nt, nt ∈ ts → ∃ v, x.2 !! nt.1 = Some v ∧ selects nt.2 x.1 v).

End Frame.

(** ** The script [fetch_ag_data_robust.py] *)

Module Pipeline.
Import Numeric Frame.

(** One record of the API's JSON payload, with the fields the scripts
    read: the three key fields, the disclosure category label
    [domaincat_desc] and the raw [Value]. *)
Record raw_record : Type := RawRecord {
  r_state_name : string;
  r_county_name : string;
  r_year : Z;
  r_domaincat_desc : string;
  r_Value : string
}.

Definition TARGET_STATES : list string := ["OR"; "WA"; "CA"; "NV"; "ID"; "MT"].

Definition MAX_RETRIES : nat := 3.

Definition extras : Type := option (list (string * string)).

Definition METRICS : list (string * (string * extras)) :=
  [ ("farms", ("FARM OPERATIONS - NUMBER OF OPERATIONS", None));
    ("cropland_acres", ("AG LAND, CROPLAND - ACRES", None));
    ("harvested_cropland_acres", ("AG LAND, CROPLAND, HARVESTED - ACRES", None));
    ("irrigated_acres",
      ("AG LAND, IRRIGATED - ACRES", Some [("prodn_practice_desc", "IRRIGATED")]));
    ("market_value_total_dollars", ("COMMODITY TOTALS - SALES, MEASURED IN $", None));
    ("crops_sales_dollars", ("CROP TOTALS - SALES, MEASURED IN $", None));
    ("livestock_sales_dollars",
      ("ANIMAL TOTALS, INCL PRODUCTS - SALES, MEASURED IN $", None));
    ("gov_payments_dollars", ("GOVT PROGRAMS, FEDERAL - RECEIPTS, MEASURED IN $", None));
    ("apples_acres", ("APPLES - ACRES BEARING & NON-BEARING", None));
    ("wheat_acres", ("WHEAT - ACRES HARVESTED", None));
    ("rice_acres", ("RICE - ACRES HARVESTED", None));
    ("hazelnuts_acres", ("HAZELNUTS - ACRES BEARING & NON-BEARING", None));
    ("grass_seed_bentgrass_acres", ("GRASSES, BENTGRASS, SEED - ACRES HARVESTED", None));
    ("grass_seed_bermudagrass_acres",
      ("GRASSES, BERMUDA GRASS, SEED - ACRES HARVESTED", None));
    ("grass_seed_bluegrass_acres",
      ("GRASSES, BLUEGRASS, KENTUCKY, SEED - ACRES HARVESTED", None));
    ("grass_seed_bromegrass_acres", ("GRASSES, BROMEGRASS, SEED - ACRES HARVESTED", None));
    ("grass_seed_fescue_acres", ("GRASSES, FESCUE, SEED - ACRES HARVESTED", None));
    ("grass_seed_orchardgrass_acres",
      ("GRASSES, ORCHARDGRASS, SEED - ACRES HARVESTED", None));
    ("grass_seed_ryegrass_acres", ("GRASSES, RYEGRASS, SEED - ACRES HARVESTED", None));
    ("grass_seed_sudangrass_acres", ("GRASSES, SUDANGRASS, SEED - ACRES HARVESTED", None));
    ("grass_seed_timothy_acres", ("GRASSES, TIMOTHY, SEED - ACRES HARVESTED", None));
    ("grass_seed_wheatgrass_acres", ("GRASSES, WHEATGRASS, SEED - ACRES HARVESTED", None));
    ("corn_acres", ("CORN, GRAIN - ACRES HARVESTED", None));
    ("corn_silage_acres", ("CORN, SILAGE - ACRES HARVESTED", None));
    ("hay_acres", ("HAY - ACRES HARVESTED", None));
    ("haylage_acres", ("HAYLAGE - ACRES HARVESTED", None));
    ("beef_cattle_head", ("CATTLE, COWS, BEEF - INVENTORY", None));
    ("dairy_cattle_head", ("CATTLE, COWS, MILK - INVENTORY", None)) ].

(** *** The world the script runs in *)

(** A JSON body as the loop over the states reads it: one without a
    usable "data" entry, one whose records lack one of the four selected
    fields (the column selection then raises KeyError), or the list under
    "data". *)
Inductive response : Type :=
| Failed
| Malformed
| Data (recs : list raw_record).

(** What one [requests.get] of [fetch_with_retry] ends in: status 200 with
    a JSON body, status 429, another status, or one of the exceptions the
    function catches (a body that is no JSON included). *)
Inductive attempt : Type :=
| Status200 (data : response)
| Status429
| StatusOther
| RaisedTimeout
| RaisedRequestException
| RaisedJSONDecodeError.

Record query : Type := Query {
  short_desc : string;
  state_alpha : string;
  extra_params : extras
}.

Record world : Type := World {
  (** the remote endpoint: the outcome of the n-th request for a query *)
  http : query → nat → attempt;
  (** the cache directory: metric name to the table [pd.read_csv] loads *)
  cache : gmap string table;
  (** whether writing the merged CSV succeeds (otherwise [to_csv] raises) *)
  output_writable : bool
}.

(** *** [fetch_with_retry] *)

(** The loop [for attempt in range(max_retries)] from attempt number
    [attempt] on, with [remaining] attempts left: the first status 200 ends
    it with the body; every other outcome is logged and the loop goes on.
    The delays between attempts are not part of the model. *)
Fixpoint retry_from (get : nat → attempt) (attempt remaining : nat)
    : option response :=
  match remaining with
  | O => None
  | S remaining' =>
      match get attempt with
      | Status200 data => Some data
      | _ => retry_from get (S attempt) remaining'
      end
  end.

Definition fetch_with_retry (get : nat → attempt) (max_retries : nat)
    : option response :=
  retry_from get 0 max_retries.

(** [data = fetch_with_retry(BASE_URL, params)] as the branches below it
    read it: [None] takes the branch of a body without "data". *)
Definition api (w : world) (q : query) : response :=
  default Failed (fetch_with_retry (http w q) MAX_RETRIES).

(** *** [fetch_metric_multistate] *)

(** [df[["state_name", "county_name", "year", "Value"]]] on one record. *)
Definition select_columns (r : raw_record) : key * cell :=
  (Key (r_state_name r) (r_county_name r) (r_year r), CStr (r_Value r)).

(** One iteration of the loop over [TARGET_STATES]: [inl] is the raised
    KeyError, [inr] the frames collected so far. *)
Definition fetch_state (w : world) (desc : string) (ex : extras)
    (acc : list table) (state : string) : unit + list table :=
  match api w (Query desc state ex) with
  | Data (r :: recs) => inr (acc ++ [select_columns <$> (r :: recs)])
  | Data [] => inr acc
  | Failed => inr acc
  | Malformed => inl ()
  end.

Fixpoint fetch_states (w : world) (desc : string) (ex : extras)
    (acc : list table) (states : list string) : unit + list table :=
  match states with
  | [] => inr acc
  | st :: states' =>
      match fetch_state w desc ex acc st with
      | inl e => inl e
      | inr acc' => fetch_states w desc ex acc' states'
      end
  end.

(** The result: [inl] for a raised exception; otherwise the table and the
    cache file written, if any. *)
Definition fetch_metric_multistate (w : world) (desc metric_name : string)
    (ex : extras) : unit + (table * option (string * table)) :=
  match cache w !! metric_name with
  | Some t => inr (t, None)
  | None =>
      match fetch_states w desc ex [] TARGET_STATES with
      | inl e => inl e
      | inr [] => inr ([], None)
      | inr all_states_data =>
          let combined_df := concat all_states_data in
          inr (combined_df, Some (metric_name, combined_df))
      end
  end.

(** *** Cleaning *)

(** [Series.astype(str)] on one cell. *)
Definition astype_str (c : cell) : string :=
  match c with
  | CNaN => "nan"
  | CStr s => s
  | CInt z => str_of_int z
  | CFloat d => str_of_float d
  end.

(** [pd.to_numeric(col.astype(str).str.strip().str.replace(",", ""),
    errors='coerce')] on one cell. *)
Definition clean_value (c : cell) : option decimal :=
  to_numeric (Text.replace_commas (Text.strip (astype_str c))).

Definition cell_of_value (v : option decimal) : cell :=
  match v with
  | Some d => CFloat d
  | None => CNaN
  end.

Definition clean_cell (c : cell) : cell := cell_of_value (clean_value c).

(** [merged[col] = ...]: the assignment replaces the column's cells. *)
Definition clean_column (f : frame) (col : string) : frame :=
  Frame (columns f) ((λ r : row, (r.1, alter clean_cell col r.2)) <$> rows f).

Definition cols_to_clean (merged : frame) : list string :=
  filter (λ col, col ∈ columns merged) METRICS.*1.

Definition clean_frame (merged : frame) : frame :=
  foldl clean_column merged (cols_to_clean merged).

(** *** The derived column [grass_seed_acres] *)

Definition grass_seed_cols : list string :=
  [ "grass_seed_bentgrass_acres"; "grass_seed_bermudagrass_acres";
    "grass_seed_bluegrass_acres"; "grass_seed_bromegrass_acres";
    "grass_seed_fescue_acres"; "grass_seed_orchardgrass_acres";
    "grass_seed_ryegrass_acres"; "grass_seed_sudangrass_acres";
    "grass_seed_timothy_acres"; "grass_seed_wheatgrass_acres" ].

Definition existing_grass_cols (merged : frame) : list string :=
  filter (λ col, col ∈ columns merged) grass_seed_cols.

Definition isna (c : cell) : bool :=
  match c with CNaN => true | _ => false end.

(** [fillna(0)] *)
Definition fillna0 (c : cell) : cell := if isna c then CInt 0 else c.

(** The number a cell adds to a sum; summing a [str] raises TypeError. *)
Definition cell_number (c : cell) : option decimal :=
  match c with
  | CInt z => Some (dec_of_Z z)
  | CFloat d => Some d
  | CNaN => Some dec_zero
  | CStr _ => None
  end.

(** [sum(axis=1)] over the cells of one row. *)
Fixpoint row_sum (acc : decimal) (cs : list cell) : option decimal :=
  match cs with
  | [] => Some acc
  | c :: cs' => d ← cell_number c; row_sum (dec_add acc d) cs'
  end.

(** The cells of the selected columns of a row, [merged[cols]]. *)
Definition row_cells (cols : list string) (r : row) : list cell :=
  (λ col, default CNaN (r.2 !! col)) <$> cols.

(** The two assignments to [merged["grass_seed_acres"]] on one row. *)
Definition rollup_cell (cs : list cell) : option cell :=
  total ← row_sum dec_zero (fillna0 <$> cs);
  Some (if forallb isna cs then CNaN else CFloat total).

Definition rollup_row (cols : list string) (r : row) : option row :=
  c ← rollup_cell (row_cells cols r);
  Some (r.1, <[ "grass_seed_acres" := c ]> r.2).

(** The columns after [merged[name] = ...]: a new name goes last. *)
Definition assign_column (name : string) (cols : list string) : list string :=
  if bool_decide (name ∈ cols) then cols else cols ++ [name].

(** [None] is the TypeError of summing a non-numeric column. *)
Definition add_rollup (merged : frame) : option frame :=
  match existing_grass_cols merged with
  | [] => Some merged
  | cols =>
      rs ← mapM (rollup_row cols) (rows merged);
      Some (Frame (assign_column "grass_seed_acres" (columns merged)) rs)
  end.

(** *** [main] and the entry point *)

Inductive effect : Type :=
| CacheWrite (metric_name : string) (t : table)
| OutputWrite (merged : frame).

Inductive outcome : Type :=
| Returned
| Raised.

(** The loop over [METRICS.items()]: a raised exception is caught and the
    metric skipped; an empty table is skipped too. *)
Definition fetch_step (w : world) (st : list frame * list effect)
    (m : string * (string * extras)) : list frame * list effect :=
  let '(frames, effs) := st in
  let '(col_name, (desc, ex)) := m in
  match fetch_metric_multistate w desc col_name ex with
  | inl _ => (frames, effs)
  | inr (df, written) =>
      let effs' :=
        effs ++ match written with
                | Some (n, t) => [CacheWrite n t]
                | None => []
                end in
      match df with
      | [] => (frames, effs')
      | _ => (frames ++ [rename_value col_name df], effs')
      end
  end.

Definition fetch_all (w : world) : list frame * list effect :=
  foldl (fetch_step w) ([], []) METRICS.

Definition main (w : world) : list effect * outcome :=
  let '(frames, effs) := fetch_all w in
  match frames with
  | [] => (effs, Returned)
  | _ =>
      match reduce_merge frames with
      | None => (effs, Raised)
      | Some merged =>
          match add_rollup (clean_frame merged) with
          | None => (effs, Raised)
          | Some final =>
              if output_writable w then (effs ++ [OutputWrite final], Returned)
              else (effs, Raised)
          end
      end
  end.

(** The exit status of the process. *)
Inductive exit_status : Type :=
| ExitNormal
| ExitAbnormal.

(** [if __name__ == "__main__"]: an exception that leaves [main] is logged
    and raised again, which ends the process with a traceback and a
    non-zero status; a return of [main] ends it with status 0. *)
Definition script (w : world) : list effect * exit_status :=
  let '(effs, o) := main w in
  (effs, match o with Returned => ExitNormal | Raised => ExitAbnormal end).

(** *** Vocabulary for the properties of the pipeline *)

(** What cleaning the columns [cols] does to one row. *)
Definition clean_row (cols : list string) (r : row) : row :=
  (r.1, foldl (λ m col, alter clean_cell col m) r.2 cols).


Definition sum_decimals (vs : list decimal) : decimal := foldl dec_add dec_zero vs.

(** A cell of a numeric column: anything but a [str]. *)
Definition numeric_cell (c : cell) : Prop :=
  match c with CStr _ => False | _ => True end.

(** The number a cell holds, if it holds one. *)
Definition cell_present (c : cell) : option decimal :=
  match c with
  | CFloat d => Some d
  | CInt z => Some (dec_of_Z z)
  | _ => None
  end.

(** The rows one state contributes to a metric's table. *)
Definition state_rows (w : world) (desc : string) (ex : extras) (st : string)
    : table :=
  match api w (Query desc st ex) with
  | Data recs => select_columns <$> recs
  | _ => []
  end.

(** The rows the API hands back for one metric, state after state, each
    cut down to the four selected columns. *)
Definition fetched_rows (w : world) (desc : string) (ex : extras) : table :=
  TARGET_STATES ≫= state_rows w desc ex.

(** The frame one metric adds to [frames], if any. *)
Definition frame_of_metric (w : world) (m : string * (string * extras))
    : option frame :=
  match fetch_metric_multistate w m.2.1 m.1 m.2.2 with
  | inr (r :: df, _) => Some (rename_value m.1 (r :: df))
  | _ => None
  end.

(** The same as a named table. *)
Definition table_of_metric (w : world) (m : string * (string * extras))
    : option named_table :=
  match fetch_metric_multistate w m.2.1 m.1 m.2.2 with
  | inr (r :: df, _) => Some (m.1, r :: df)
  | _ => None
  end.

(** The named tables behind the frames [main] merges, in catalog order. *)
Definition tables (w : world) : list named_table :=
  omap (table_of_metric w) METRICS.

(** Every per-metric fetch comes back empty (or raises). *)
Definition no_data (w : world) : Prop :=
  ∀ m, m ∈ METRICS → frame_of_metric w m = None.

Definition writes_output (effs : list effect) : Prop :=
  ∃ f, OutputWrite f ∈ effs.

Definition cache_write (e : effect) : Prop :=
  match e with CacheWrite _ _ => True | OutputWrite _ => False end.

(** *** The delays of [fetch_with_retry] *)

Definition RETRY_DELAY : nat := 5.

(** The seconds slept after an attempt that did not return: twice the
    retry delay on status 429, and the retry delay unless the attempt was
    the last one ([attempt < max_retries - 1]). *)
Definition attempt_sleeps (outcome : attempt) (remaining' : nat) : list nat :=
  match outcome with
  | Status429 => [RETRY_DELAY * 2]
  | _ => []
  end ++
  match remaining' with
  | O => []
  | S _ => [RETRY_DELAY]
  end.

(** The loop of [fetch_with_retry] again, now with the calls of
    [time.sleep] it makes, in order. *)
Fixpoint retry_trace (get : nat → attempt) (attempt remaining : nat)
    : option response * list nat :=
  match remaining with
  | O => (None, [])
  | S remaining' =>
      match get attempt with
      | Status200 data => (Some data, [])
      | outcome =>
          let '(result, sleeps) := retry_trace get (S attempt) remaining' in
          (result, attempt_sleeps outcome remaining' ++ sleeps)
      end
  end.

Definition fetch_with_retry_trace (get : nat → attempt) (max_retries : nat)
    : option response * list nat :=
  retry_trace get 0 max_retries.

(** *** [validate_data] and the statistics [main] collects *)

(** An entry of [fetch_stats]: the dictionary [validate_data] returns, the
    entry of a metric without data ([total_rows] 0 and an error text), or
    the entry of a metric whose processing raised (an error text and no
    [total_rows]). *)
Inductive fetch_stat : Type :=
| Validated (metric : string)
    (total_rows unique_states unique_counties
     non_null_values null_values withheld_d_values : nat)
| NoDataStat (metric : string)
| ErrorStat (metric : string).

(** [df[col].isna().sum()] and [df[col].notna().sum()]. *)
Definition null_count (col : string) (rs : list row) : nat :=
  length (filter (λ r : row, isna (default CNaN (r.2 !! col)) = true) rs).

Definition non_null_count (col : string) (rs : list row) : nat :=
  length (filter (λ r : row, isna (default CNaN (r.2 !! col)) = false) rs).

(** [Series.nunique()] of a key column. *)
Definition nunique (values : list string) : nat := length (remove_dups values).

(** [validate_data]: a frame always has its three key columns, so the
    two distinct counts are taken; [withheld_d_values] is set to 0 and
    never counted. *)
Definition validate_data (df : frame) (metric_name : string) : fetch_stat :=
  let present := bool_decide (metric_name ∈ columns df) in
  Validated metric_name
    (length (rows df))
    (nunique (state_name <$> keys_of (rows df)))
    (nunique (county_name <$> keys_of (rows df)))
    (if present then non_null_count metric_name (rows df) else 0)
    (if present then null_count metric_name (rows df) else 0)
    0.

(** [s['metric']] and [s.get('total_rows', 0)]. *)
Definition stat_metric (s : fetch_stat) : string :=
  match s with
  | Validated metric _ _ _ _ _ _ => metric
  | NoDataStat metric => metric
  | ErrorStat metric => metric
  end.

Definition stat_total_rows (s : fetch_stat) : nat :=
  match s with
  | Validated _ total_rows _ _ _ _ _ => total_rows
  | NoDataStat _ => 0
  | ErrorStat _ => 0
  end.

(** The body of the loop over [METRICS.items()] with all three lists it
    feeds: [frames], [fetch_stats] and the files written. *)
Definition loop_step (w : world)
    (st : list frame * list fetch_stat * list effect)
    (m : string * (string * extras))
    : list frame * list fetch_stat * list effect :=
  let '(frames, fetch_stats, effs) := st in
  let '(col_name, (desc, ex)) := m in
  match fetch_metric_multistate w desc col_name ex with
  | inl _ => (frames, fetch_stats ++ [ErrorStat col_name], effs)
  | inr (df, written) =>
      let effs' :=
        effs ++ match written with
                | Some (n, t) => [CacheWrite n t]
                | None => []
                end in
      match df with
      | [] => (frames, fetch_stats ++ [NoDataStat col_name], effs')
      | _ =>
          let df' := rename_value col_name df in
          (frames ++ [df'], fetch_stats ++ [validate_data df' col_name], effs')
      end
  end.

Definition main_loop (w : world) : list frame * list fetch_stat * list effect :=
  foldl (loop_step w) ([], [], []) METRICS.

(** The two lists of the summary report. *)
Definition successful (fetch_stats : list fetch_stat) : list fetch_stat :=
  filter (λ s, 0 < stat_total_rows s) fetch_stats.

Definition failed (fetch_stats : list fetch_stat) : list fetch_stat :=
  filter (λ s, stat_total_rows s = 0) fetch_stats.

(** *** The counts the cleaning loop logs *)

(** The cells of a column that hold something and do not parse. *)
Definition unparsed_count (col : string) (rs : list row) : nat :=
  length (filter (λ r : row,
                    isna (default CNaN (r.2 !! col)) = false
                    ∧ clean_value (default CNaN (r.2 !! col)) = None) rs).

(** [withheld = new_nulls - original_nulls] for one column. *)
Definition withheld (col : string) (merged : frame) : nat :=
  null_count col (rows (clean_column merged col)) - null_count col (rows merged).

(** *** More vocabulary *)

(** How many rows of a table carry the key [k]. *)
Definition table_count (k : key) (t : table) : nat :=
  length (filter (λ kv : key * cell, kv.1 = k) t).

(** How many rows the fold of outer joins makes of the key [k]: none when
    no table has it, and otherwise the product of the tables' counts, a
    table without the key counting once. *)
Definition merged_count (k : key) (ts : list named_table) : nat :=
  if forallb (λ nt : named_table, table_count k nt.2 =? 0) ts then 0
  else foldr (λ nt acc, Nat.max 1 (table_count k nt.2) * acc) 1 ts.

(** The columns of the written file for the metric names [names]. *)
Definition output_columns (names : list string) : list string :=
  match filter (λ col, col ∈ names) grass_seed_cols with
  | [] => names
  | _ => names ++ ["grass_seed_acres"]
  end.

(** A cell that holds a Python [str]. *)
Definition str_cell (c : cell) : Prop :=
  match c with CStr _ => True | _ => False end.

(** The cache file the fetch of one metric writes, if any. *)
Definition written_by (w : world) (m : string * (string * extras)) : list effect :=
  match fetch_metric_multistate w m.2.1 m.1 m.2.2 with
  | inr (_, Some (n, t)) => [CacheWrite n t]
  | _ => []
  end.

End Pipeline.

(** ** The disclosure reconciler *)

Module Reconciler.
Import Numeric Pipeline.

(** Modelled from the spec: the category label of the aggregate/total
    record, "NOT SPECIFIED"; the constant lives in
    [fetch_ag_data_enhanced.py], which is not among the sources. *)
Definition AGGREGATE_LABEL : string := "NOT SPECIFIED".

(** Modelled from the spec: the numeric parsing of [process_county_records]
    (in the missing [fetch_ag_data_enhanced.py]): it tolerates
    thousands-separators and surrounding whitespace, and a value that still
    fails to parse is unusable, like a suppression marker. *)
Definition parse_value (v : string) : option decimal :=
  to_numeric (Text.replace_commas (Text.strip v)).

(** Modelled from the spec: the test that a record is the aggregate/total
    row, by its [domaincat_desc]; part of the missing
    [process_county_records]. *)
Definition is_aggregate (r : raw_record) : bool :=
  bool_decide (r_domaincat_desc r = AGGREGATE_LABEL).

(** Modelled from the spec: the genuine values of the aggregate records,
    in the order of the records; part of the missing
    [process_county_records]. *)
Definition aggregate_values (records : list raw_record) : list decimal :=
  omap (λ r, if is_aggregate r then parse_value (r_Value r) else None) records.

(** Modelled from the spec: the genuine values of the disaggregated
    subcategory records; suppressed and malformed ones are left out.  Part
    of the missing [process_county_records]. *)
Definition subcategory_values (records : list raw_record) : list decimal :=
  omap (λ r, if is_aggregate r then None else parse_value (r_Value r)) records.

(** Modelled from the spec: the sum of a list of genuine values; part of
    the missing [process_county_records]. *)
Definition sum_values (vs : list decimal) : decimal := foldl dec_add dec_zero vs.

(** Modelled from the spec: [process_county_records] of
    [fetch_ag_data_enhanced.py], which [test_enhanced_script.py] imports and
    which is not among the sources.  The result is the reconciled value
    ([None] is "no value") and the flag "was estimated from parts": a
    genuine aggregate wins; otherwise the genuine subcategories are summed;
    otherwise there is no value. *)
Definition process_county_records (records : list raw_record)
    : option decimal * bool :=
  match aggregate_values records with
  | v :: _ => (Some v, false)
  | [] =>
      match subcategory_values records with
      | [] => (None, false)
      | vs => (Some (sum_values vs), true)
      end
  end.

End Reconciler.

(** ** Sample data for the examples *)

Module Samples.
Import Numeric Frame Pipeline.

Definition lane : key := Key "OREGON" "LANE" 2022.
Definition benton : key := Key "OREGON" "BENTON" 2022.
Definition linn : key := Key "OREGON" "LINN" 2022.

(** A table in which the API reported one county twice. *)
Definition farms_twice : named_table :=
  ("farms", [(lane, CStr "1,234"); (lane, CStr "(D)")]).

Definition farms_table : named_table :=
  ("farms", [(lane, CStr "1,234"); (benton, CStr "(D)")]).

Definition wheat_table : named_table :=
  ("wheat_acres", [(benton, CStr "77")]).

Definition raw_frame : frame :=
  Frame ["farms"; "wheat_acres"]
    [ (benton, {[ "farms" := CStr "(D)"; "wheat_acres" := CStr " 77 " ]});
      (lane, {[ "farms" := CStr "1,234"; "wheat_acres" := CNaN ]});
      (linn, {[ "farms" := CStr "0"; "wheat_acres" := CStr "12.50" ]}) ].

Definition grass_frame : frame :=
  Frame ["grass_seed_fescue_acres"; "grass_seed_ryegrass_acres"]
    [ (benton, {[ "grass_seed_fescue_acres" := CStr "(D)";
                  "grass_seed_ryegrass_acres" := CNaN ]});
      (lane, {[ "grass_seed_fescue_acres" := CStr "0";
                "grass_seed_ryegrass_acres" := CStr "(D)" ]});
      (linn, {[ "grass_seed_fescue_acres" := CStr "1,500";
                "grass_seed_ryegrass_acres" := CStr "2,250.5" ]}) ].

(** The API returns, for one county, a withheld total and two disclosed
    subcategory rows. *)
Definition lane_beef : list raw_record :=
  [ RawRecord "OREGON" "LANE" 2022 "NOT SPECIFIED" "(D)";
    RawRecord "OREGON" "LANE" 2022 "INVENTORY OF BEEF COWS: (1 TO 9 HEAD)" "5,000";
    RawRecord "OREGON" "LANE" 2022 "INVENTORY OF BEEF COWS: (10 TO 19 HEAD)" "2,500" ].

(** The endpoint times out once on every query, then answers. *)
Definition beef_http (q : query) (n : nat) : attempt :=
  match n with
  | O => RaisedTimeout
  | _ =>
      if bool_decide (short_desc q = "CATTLE, COWS, BEEF - INVENTORY"
                      ∧ state_alpha q = "OR")
      then Status200 (Data lane_beef) else Status200 (Data [])
  end.

Definition beef_world : world := World beef_http ∅ true.

(** The same answers, and an output file that cannot be written. *)
Definition unwritable_world : world := World beef_http ∅ false.

(** Every query comes back with an empty "data" list. *)
Definition empty_world : world := World (λ _ _, Status200 (Data [])) ∅ true.

(** The endpoint is rate limited for good. *)
Definition down_world : world := World (λ _ _, Status429) ∅ true.

Definition total_row (v : string) : raw_record :=
  RawRecord "OREGON" "LANE" 2022 "NOT SPECIFIED" v.

Definition part_row (label v : string) : raw_record :=
  RawRecord "OREGON" "LANE" 2022 label v.

(** A cache directory with a file for every metric of the catalog. *)
Definition full_cache : gmap string table :=
  list_to_map ((λ m : string * (string * extras), (m.1, [(lane, CInt 7)])) <$> METRICS).

Definition cached_world : world := World beef_http full_cache true.

Definition offline_world : world := World (λ _ _, RaisedTimeout) full_cache true.

End Samples.

(** * Properties *)

(** A decidable proposition about concrete data, settled by evaluation. *)
Ltac by_evaluation := apply (bool_decide_unpack _); vm_compute; exact I.

(** ** Text *)

Module TextFacts.
Import Text.

Lemma list_ascii_roundtrip (l : list ascii) :
  list_ascii_of_string (string_of_list_ascii l) = l.
Proof. apply list_ascii_of_string_of_list_ascii. Qed.

Lemma lstrip_no_space (l : list ascii) :
  Forall (λ c, is_space c = false) l → lstrip l = l.
Proof. destruct 1 as [|c l Hc _]; simpl; [done|]. by rewrite Hc. Qed.

Lemma strip_chars_no_space (l : list ascii) :
  Forall (λ c, is_space c = false) l → strip_chars l = l.
Proof.
  intros H. unfold strip_chars, rstrip.
  rewrite (lstrip_no_space l H).
  rewrite lstrip_no_space; [apply rev_involutive|].
  by apply Forall_rev.
Qed.

Lemma remove_commas_no_comma (l : list ascii) :
  Forall (λ c, is_comma c = false) l → remove_commas l = l.
Proof.
  induction 1 as [|c l Hc _ IH]; simpl; [done|].
  rewrite Hc. by f_equal.
Qed.

(** A string without whitespace or commas passes the two text steps of
    the cleaner unchanged. *)
Lemma strip_replace_plain (l : list ascii) :
  Forall plain_char l →
  replace_commas (strip (string_of_list_ascii l)) = string_of_list_ascii l.
Proof.
  intros H. unfold replace_commas, strip.
  rewrite !list_ascii_roundtrip.
  rewrite strip_chars_no_space by (eapply Forall_impl; [exact H|by intros ? []]).
  by rewrite remove_commas_no_comma by (eapply Forall_impl; [exact H|by intros ? []]).
Qed.

End TextFacts.

(** ** Numbers *)

Module NumericFacts.
Import Text Numeric.
Local Open Scope Z_scope.

(** *** Canonical forms *)

Lemma dec_norm_go_wf (s : nat) (m : Z) : dec_wf (dec_norm_go m s).
Proof.
  revert m. induction s as [|s IH]; intros m; simpl.
  - by left.
  - destruct (m mod 10 =? 0) eqn:E; [apply IH|].
    right. simpl. by apply Z.eqb_neq.
Qed.

Lemma dec_norm_wf (d : decimal) : dec_wf (dec_norm d).
Proof. apply dec_norm_go_wf. Qed.

Lemma dec_norm_id (d : decimal) : dec_wf d → dec_norm d = d.
Proof.
  destruct d as [m [|s]]; unfold dec_wf, dec_norm; simpl; [done|].
  intros [?|Hm]; [done|]. apply Z.eqb_neq in Hm. by rewrite Hm.
Qed.

Lemma dec_norm_idemp (d : decimal) : dec_norm (dec_norm d) = dec_norm d.
Proof. apply dec_norm_id, dec_norm_wf. Qed.

Lemma to_numeric_wf (s : string) (d : decimal) :
  to_numeric s = Some d → dec_wf d.
Proof.
  unfold to_numeric. intros H.
  apply fmap_Some in H as (d' & _ & ->). apply dec_norm_wf.
Qed.

Lemma dec_add_wf (a b : decimal) : dec_wf (dec_add a b).
Proof. apply dec_norm_wf. Qed.

Lemma dec_add_comm (a b : decimal) : dec_add a b = dec_add b a.
Proof.
  unfold dec_add. rewrite (Nat.max_comm (scale b)). do 2 f_equal. lia.
Qed.

Lemma dec_add_zero_r (a : decimal) : dec_wf a → dec_add a dec_zero = a.
Proof.
  intros H. unfold dec_add. simpl.
  rewrite Nat.max_0_r, Nat.sub_diag, Z.pow_0_r, Z.mul_1_r, Z.add_0_r.
  destruct a. by apply dec_norm_id.
Qed.

Lemma dec_add_zero_l (a : decimal) : dec_wf a → dec_add dec_zero a = a.
Proof. intros. rewrite dec_add_comm. by apply dec_add_zero_r. Qed.

(** *** Digits *)

Lemma digit_char_roundtrip (d : Z) :
  0 <= d <= 9 → digit_of_char (char_of_digit d) = Some d.
Proof.
  intros H.
  assert (d = 0 ∨ d = 1 ∨ d = 2 ∨ d = 3 ∨ d = 4 ∨ d = 5 ∨ d = 6 ∨ d = 7
          ∨ d = 8 ∨ d = 9) as Hd by lia.
  repeat destruct Hd as [->|Hd]; try reflexivity. by subst.
Qed.

Lemma digit_of_char_bounds (c : ascii) (d : Z) :
  digit_of_char c = Some d → 0 <= d <= 9.
Proof.
  unfold digit_of_char. intros H.
  destruct (_ && _) eqn:E; [|done]. injection H as <-.
  apply andb_true_iff in E as [?%Z.leb_le ?%Z.leb_le]. lia.
Qed.

Lemma digit_of_char_inv (c : ascii) (d : Z) :
  digit_of_char c = Some d → c = char_of_digit d.
Proof.
  intros H. pose proof (digit_of_char_bounds _ _ H) as Hb.
  unfold digit_of_char in H.
  destruct (_ && _); [|done]. injection H as <-.
  unfold char_of_digit.
  replace (48 + (Z.of_nat (nat_of_ascii c) - 48)) with (Z.of_nat (nat_of_ascii c)) by lia.
  by rewrite Nat2Z.id, ascii_nat_embedding.
Qed.

(** A digit is none of the characters with a role of their own. *)
Lemma digit_char_plain (d : Z) :
  0 <= d <= 9 →
  let c := char_of_digit d in
  plain_char c ∧ is_dot c = false ∧ c ≠ "-"%char ∧ c ≠ "+"%char.
Proof.
  intros H.
  assert (d = 0 ∨ d = 1 ∨ d = 2 ∨ d = 3 ∨ d = 4 ∨ d = 5 ∨ d = 6 ∨ d = 7
          ∨ d = 8 ∨ d = 9) as Hd by lia.
  repeat destruct Hd as [->|Hd]; try (by vm_compute). subst. by vm_compute.
Qed.

Lemma digits_value_app (a : Z) (x y : list ascii) :
  digits_value a (x ++ y) = digits_value a x ≫= λ v, digits_value v y.
Proof.
  revert a. induction x as [|c x IH]; intros a; simpl; [done|].
  destruct (digit_of_char c); [apply IH|done].
Qed.

Lemma digits_value_shift (l : list ascii) (a v : Z) :
  digits_value 0 l = Some v →
  digits_value a l = Some (a * 10 ^ Z.of_nat (length l) + v).
Proof.
  revert a v. induction l as [|c l IH] using rev_ind; intros a v.
  - simpl. intros [= <-]. f_equal. lia.
  - rewrite !digits_value_app, length_app. simpl.
    destruct (digits_value 0 l) as [u|] eqn:Hu; [|done]. simpl.
    rewrite (IH a u eq_refl). simpl.
    destruct (digit_of_char c) as [d|]; [|done].
    intros [= <-]. f_equal.
    rewrite Nat2Z.inj_add, Z.pow_add_r by lia. simpl Z.of_nat. lia.
Qed.

Lemma fixed_digits_acc (s : nat) (r : Z) (acc : list ascii) :
  fixed_digits s r acc = fixed_digits s r [] ++ acc.
Proof.
  revert r acc. induction s as [|s IH]; intros r acc; simpl; [done|].
  rewrite (IH _ (_ :: acc)), (IH _ [_]). by rewrite <- app_assoc.
Qed.

Lemma fixed_digits_length (s : nat) (r : Z) :
  length (fixed_digits s r []) = s.
Proof.
  revert r. induction s as [|s IH]; intros r; simpl; [done|].
  rewrite fixed_digits_acc, length_app, IH. simpl. lia.
Qed.

Lemma mod10_bounds (n : Z) : 0 <= n mod 10 <= 9.
Proof. pose proof (Z.mod_pos_bound n 10). lia. Qed.

Lemma fixed_digits_all_digits (s : nat) (r : Z) :
  all_digits (fixed_digits s r []).
Proof.
  revert r. induction s as [|s IH]; intros r; simpl; [constructor|].
  rewrite fixed_digits_acc. apply Forall_app. split; [apply IH|].
  apply Forall_singleton. exists (r mod 10). split; [apply mod10_bounds|done].
Qed.

Lemma fixed_digits_value (s : nat) (r : Z) :
  digits_value 0 (fixed_digits s r []) = Some (r mod 10 ^ Z.of_nat s).
Proof.
  revert r. induction s as [|s IH]; intros r.
  - simpl. by rewrite Z.mod_1_r.
  - simpl fixed_digits. rewrite fixed_digits_acc, digits_value_app, IH. simpl.
    rewrite digit_char_roundtrip by apply mod10_bounds. f_equal.
    rewrite Nat2Z.inj_succ, Z.pow_succ_r by lia.
    rewrite Z.rem_mul_r by lia. lia.
Qed.

Lemma digits_fuel_acc (fuel : nat) (n : Z) (acc : list ascii) :
  digits_fuel fuel n acc = digits_fuel fuel n [] ++ acc.
Proof.
  revert n acc. induction fuel as [|k IH]; intros n acc; simpl; [done|].
  destruct (n <? 10); [done|].
  rewrite (IH _ (_ :: acc)), (IH _ [_]). by rewrite <- app_assoc.
Qed.

Lemma digits_fuel_all_digits (fuel : nat) (n : Z) :
  all_digits (digits_fuel fuel n []).
Proof.
  revert n. induction fuel as [|k IH]; intros n; simpl; [constructor|].
  assert (all_digits [char_of_digit (n mod 10)]) as H1.
  { apply Forall_singleton. exists (n mod 10). split; [apply mod10_bounds|done]. }
  destruct (n <? 10); [done|].
  rewrite digits_fuel_acc. apply Forall_app. split; [apply IH|exact H1].
Qed.

Lemma digits_fuel_value (fuel : nat) (n : Z) :
  0 <= n < 2 ^ Z.of_nat fuel →
  digits_value 0 (digits_fuel fuel n []) = Some n.
Proof.
  revert n. induction fuel as [|k IH]; intros n Hn.
  - simpl in *. f_equal. lia.
  - simpl digits_fuel. destruct (n <? 10) eqn:E.
    + apply Z.ltb_lt in E. simpl.
      rewrite digit_char_roundtrip by apply mod10_bounds.
      f_equal. rewrite Z.mod_small; lia.
    + apply Z.ltb_ge in E.
      rewrite digits_fuel_acc, digits_value_app, IH. 
      * simpl. rewrite digit_char_roundtrip by apply mod10_bounds.
        f_equal. pose proof (Z.div_mod n 10). lia.
      * rewrite Nat2Z.inj_succ, Z.pow_succ_r in Hn by lia.
        split; [apply Z.div_pos; lia|].
        apply Z.div_lt_upper_bound; lia.
Qed.

Lemma digits_of_value (n : Z) : 0 <= n → digits_value 0 (digits_of n) = Some n.
Proof.
  intros Hn. apply digits_fuel_value.
  rewrite Nat2Z.inj_succ, Z2Nat.id by apply Z.log2_nonneg.
  destruct (decide (n = 0)) as [->|]; [done|].
  pose proof (Z.log2_spec n). lia.
Qed.

Lemma digits_of_all_digits (n : Z) : all_digits (digits_of n).
Proof. apply digits_fuel_all_digits. Qed.

Lemma digits_of_nonempty (n : Z) : digits_of n ≠ [].
Proof.
  unfold digits_of. simpl. destruct (n <? 10); [done|].
  rewrite digits_fuel_acc. by destruct (digits_fuel _ _ []).
Qed.

(** *** Parsing what the printer writes *)

Lemma all_digits_cons_inv (c : ascii) (l : list ascii) :
  all_digits (c :: l) →
  is_dot c = false ∧ c ≠ "-"%char ∧ c ≠ "+"%char ∧ all_digits l.
Proof.
  intros H. apply Forall_cons in H as [(d & Hd & ->) Hl].
  destruct (digit_char_plain d Hd) as (_ & ? & ? & ?). done.
Qed.

Lemma all_digits_plain (l : list ascii) : all_digits l → Forall plain_char l.
Proof.
  intros H. eapply Forall_impl; [exact H|]. intros c (d & Hd & ->).
  by destruct (digit_char_plain d Hd) as (? & _).
Qed.

Lemma split_dot_digits (i f : list ascii) :
  all_digits i → split_dot (i ++ "."%char :: f) = (i, Some f).
Proof.
  induction i as [|c i IH]; intros H; simpl; [done|].
  apply all_digits_cons_inv in H as (-> & _ & _ & Hi). by rewrite (IH Hi).
Qed.

Lemma split_dot_no_dot (i : list ascii) : all_digits i → split_dot i = (i, None).
Proof.
  induction i as [|c i IH]; intros H; simpl; [done|].
  apply all_digits_cons_inv in H as (-> & _ & _ & Hi). by rewrite (IH Hi).
Qed.

Lemma parse_unsigned_int (i : list ascii) (v : Z) :
  all_digits i → i ≠ [] → digits_value 0 i = Some v →
  parse_unsigned i = Some (Dec v 0).
Proof.
  intros Hi Hne Hv. unfold parse_unsigned.
  rewrite (split_dot_no_dot i Hi). simpl. rewrite app_nil_r.
  destruct i as [|c i]; [done|].
  change (digits_value 0 (c :: i) ≫= (λ m, Some (Dec m 0)) = Some (Dec v 0)).
  by rewrite Hv.
Qed.

Lemma parse_unsigned_frac (i f : list ascii) (v : Z) :
  all_digits i → i ≠ [] → digits_value 0 (i ++ f) = Some v →
  parse_unsigned (i ++ "."%char :: f) = Some (Dec v (length f)).
Proof.
  intros Hi Hne Hv. unfold parse_unsigned.
  rewrite (split_dot_digits i f Hi). simpl.
  destruct i as [|c i]; [done|].
  change (digits_value 0 ((c :: i) ++ f) ≫= (λ m, Some (Dec m (length f)))
          = Some (Dec v (length f))).
  by rewrite Hv.
Qed.

Lemma parse_signed_sign (m : Z) (body : list ascii) (d : decimal) :
  (∃ c l, body = c :: l ∧ c ≠ "-"%char ∧ c ≠ "+"%char) →
  parse_unsigned body = Some d →
  parse_signed (sign_chars m ++ body) = Some (if m <? 0 then dec_neg d else d).
Proof.
  intros (c & l & -> & Hm & Hp) Hd. unfold sign_chars.
  destruct (m <? 0); simpl.
  - simpl in Hd. by rewrite Hd.
  - rewrite !bool_decide_eq_false_2 by done. exact Hd.
Qed.

Lemma digits_of_head (n : Z) :
  ∃ c l, digits_of n = c :: l ∧ c ≠ "-"%char ∧ c ≠ "+"%char.
Proof.
  pose proof (digits_of_all_digits n) as H.
  pose proof (digits_of_nonempty n) as Hne.
  destruct (digits_of n) as [|c l]; [done|].
  apply all_digits_cons_inv in H as (_ & ? & ? & _). by exists c, l.
Qed.

Lemma signed_abs (m : Z) : (if m <? 0 then - Z.abs m else Z.abs m) = m.
Proof. destruct (Z.ltb_spec m 0); lia. Qed.

(** [str] of an integer parses to that integer. *)
Lemma to_numeric_str_of_int (z : Z) : to_numeric (str_of_int z) = Some (dec_of_Z z).
Proof.
  unfold to_numeric, str_of_int, render_int.
  rewrite list_ascii_of_string_of_list_ascii.
  rewrite (parse_signed_sign z _ (Dec (Z.abs z) 0)).
  - simpl. f_equal. unfold dec_of_Z, dec_norm.
    pose proof (signed_abs z) as Hs. destruct (z <? 0); simpl; by rewrite Hs.
  - apply digits_of_head.
  - apply parse_unsigned_int; [apply digits_of_all_digits|apply digits_of_nonempty|].
    apply digits_of_value. lia.
Qed.

(** [str] of a float in canonical form parses to that float. *)
Lemma to_numeric_str_of_float (d : decimal) :
  dec_wf d → to_numeric (str_of_float d) = Some d.
Proof.
  destruct d as [m s]. intros Hwf.
  unfold to_numeric, str_of_float, render_float. simpl mant. simpl scale.
  rewrite list_ascii_of_string_of_list_ascii.
  set (a := Z.abs m). set (p := 10 ^ Z.of_nat s).
  assert (0 < p) as Hp by (apply Z.pow_pos_nonneg; lia).
  assert (0 <= a) as Ha by (unfold a; lia).
  assert (0 <= a / p) as Hq by (apply Z.div_pos; lia).
  destruct s as [|s'].
  - (* an integral value is printed with the fraction ".0" *)
    assert (p = 1) as -> by done. rewrite Z.div_1_r.
    rewrite (parse_signed_sign m _ (Dec (a * 10) 1)).
    + simpl. f_equal. unfold dec_norm.
      pose proof (signed_abs m) as Hs. fold a in Hs.
      destruct (m <? 0); simpl.
      * replace (- (a * 10)) with (m * 10) by lia.
        by rewrite Z.mod_mul, Z.div_mul by lia.
      * replace (a * 10) with (m * 10) by lia.
        by rewrite Z.mod_mul, Z.div_mul by lia.
    + destruct (digits_of_head a) as (c & l & -> & ? & ?). by exists c, (l ++ "."%char :: ["0"%char]).
    + apply (parse_unsigned_frac _ ["0"%char]);
        [apply digits_of_all_digits|apply digits_of_nonempty|].
      rewrite digits_value_app, digits_of_value by done. simpl. f_equal.
      change (Z.of_nat (nat_of_ascii "0")) with 48. lia.
  - rewrite (parse_signed_sign m _ (Dec a (S s'))).
    + simpl. f_equal.
      pose proof (signed_abs m) as Hs. fold a in Hs.
      assert ((if m <? 0 then dec_neg (Dec a (S s')) else Dec a (S s')) = Dec m (S s')) as ->.
      { unfold dec_neg. simpl. destruct (m <? 0); by rewrite Hs. }
      by apply dec_norm_id.
    + destruct (digits_of_head (a / p)) as (c & l & -> & ? & ?).
      by eexists c, _.
    + pose proof (fixed_digits_length (S s') (a mod p)) as Hlen.
      rewrite <- Hlen at 2.
      apply parse_unsigned_frac;
        [apply digits_of_all_digits|apply digits_of_nonempty|].
      rewrite digits_value_app, digits_of_value by done.
      change (digits_value (a / p) (fixed_digits (S s') (a mod p) []) = Some a).
      rewrite (digits_value_shift _ _ _ (fixed_digits_value _ _)).
      rewrite Hlen. fold p. f_equal.
      rewrite Z.mod_mod by lia. pose proof (Z.div_mod a p). lia.
Qed.

Lemma sign_chars_plain (m : Z) : Forall plain_char (sign_chars m).
Proof. unfold sign_chars. destruct (m <? 0); repeat constructor. Qed.

Lemma render_int_plain (z : Z) : Forall plain_char (render_int z).
Proof.
  apply Forall_app. split; [apply sign_chars_plain|].
  apply all_digits_plain, digits_of_all_digits.
Qed.

Lemma render_float_plain (d : decimal) : Forall plain_char (render_float d).
Proof.
  unfold render_float. apply Forall_app. split; [apply sign_chars_plain|].
  apply Forall_app. split; [apply all_digits_plain, digits_of_all_digits|].
  apply Forall_cons. split; [done|].
  destruct (scale d); [by repeat constructor|].
  apply all_digits_plain, fixed_digits_all_digits.
Qed.

End NumericFacts.

(** ** The outer join *)

Module FrameFacts.
Import Numeric Frame.

(** *** Membership in an outer join *)

Lemma elem_of_matching (k : key) (rs : list row) (r : row) :
  r ∈ matching k rs ↔ r ∈ rs ∧ r.1 = k.
Proof. unfold matching. rewrite list_elem_of_filter. tauto. Qed.

Lemma matching_nil (k : key) (rs : list row) :
  matching k rs = [] ↔ k ∉ keys_of rs.
Proof.
  unfold keys_of. rewrite list_elem_of_fmap. split.
  - intros H (r & -> & Hr).
    assert (r ∈ matching r.1 rs) as Hin by (by apply elem_of_matching).
    rewrite H in Hin. by apply elem_of_nil in Hin.
  - intros H. apply elem_of_nil_inv. intros r [Hr <-]%elem_of_matching.
    apply H. by exists r.
Qed.

Lemma elem_of_join_left (R : frame) (l x : row) :
  x ∈ join_left R l ↔
    (∃ r, r ∈ rows R ∧ r.1 = l.1 ∧ x = (l.1, l.2 ∪ r.2))
    ∨ ((l.1 ∉ keys_of (rows R)) ∧ x = (l.1, l.2 ∪ nan_row (columns R))).
Proof.
  unfold join_left.
  destruct (matching l.1 (rows R)) as [|m ms] eqn:E.
  - apply matching_nil in E. rewrite list_elem_of_singleton. split.
    + intros ->. by right.
    + intros [(r & Hr & Hk & _)|[_ ->]]; [|done].
      destruct E. unfold keys_of. apply list_elem_of_fmap. by exists r.
  - rewrite <- E. rewrite list_elem_of_fmap. split.
    + intros (r & -> & [Hr Hk]%elem_of_matching). left. by exists r.
    + intros [(r & Hr & Hk & ->)|[Hno _]].
      * exists r. split; [done|]. by apply elem_of_matching.
      * apply matching_nil in Hno. by rewrite Hno in E.
Qed.

Lemma elem_of_join_right_only (L R : frame) (x : row) :
  x ∈ join_right_only L R ↔
    ∃ r, r ∈ rows R ∧ (r.1 ∉ keys_of (rows L))
         ∧ x = (r.1, nan_row (columns L) ∪ r.2).
Proof.
  unfold join_right_only. rewrite list_elem_of_fmap.
  setoid_rewrite list_elem_of_filter. setoid_rewrite matching_nil.
  naive_solver.
Qed.

Lemma elem_of_merge_outer (L R : frame) (x : row) :
  x ∈ rows (merge_outer L R) ↔
    (∃ l, l ∈ rows L ∧ x ∈ join_left R l) ∨ x ∈ join_right_only L R.
Proof.
  unfold merge_outer. simpl. rewrite merge_sort_Permutation.
  rewrite elem_of_app, list_elem_of_bind. naive_solver.
Qed.

Lemma elem_of_keys_of (k : key) (rs : list row) :
  k ∈ keys_of rs ↔ ∃ m, (k, m) ∈ rs.
Proof.
  unfold keys_of. rewrite list_elem_of_fmap. split.
  - intros ([k' m] & -> & H). by exists m.
  - intros (m & H). by exists (k, m).
Qed.

(** The keys of an outer join are the keys of either side. *)
Lemma keys_of_merge_outer (L R : frame) (k : key) :
  k ∈ keys_of (rows (merge_outer L R)) ↔
    k ∈ keys_of (rows L) ∨ k ∈ keys_of (rows R).
Proof.
  rewrite !elem_of_keys_of. setoid_rewrite elem_of_merge_outer.
  setoid_rewrite elem_of_join_right_only. setoid_rewrite elem_of_join_left.
  split.
  - intros (m & [(l & Hl & [(r & Hr & Hk & [= -> ->])|[Hno [= -> ->]]])
                |(r & Hr & Hno & [= -> ->])]).
    + left. exists l.2. by destruct l.
    + left. exists l.2. by destruct l.
    + right. exists r.2. by destruct r.
  - intros [(m & Hl)|(m & Hr)].
    + destruct (decide (k ∈ keys_of (rows R))) as [Hin|Hno].
      * apply elem_of_keys_of in Hin as (m' & Hr).
        exists (m ∪ m'). left. exists (k, m). split; [done|]. left.
        by exists (k, m').
      * exists (m ∪ nan_row (columns R)). left. exists (k, m).
        split; [done|]. by right.
    + destruct (decide (k ∈ keys_of (rows L))) as [Hin|Hno].
      * apply elem_of_keys_of in Hin as (m' & Hl).
        exists (m' ∪ m). left. exists (k, m'). split; [done|]. left.
        by exists (k, m).
      * exists (nan_row (columns L) ∪ m). right. by exists (k, m).
Qed.

(** *** How often a key occurs *)

Lemma count_key_app (k : key) (a b : list row) :
  count_key k (a ++ b) = count_key k a + count_key k b.
Proof. unfold count_key, matching. by rewrite filter_app, length_app. Qed.

Lemma count_key_cons (k : key) (r : row) (rs : list row) :
  count_key k (r :: rs) = (if decide (r.1 = k) then 1 else 0) + count_key k rs.
Proof.
  unfold count_key, matching. rewrite filter_cons. by destruct (decide (r.1 = k)).
Qed.

Lemma count_key_perm (k : key) (a b : list row) :
  a ≡ₚ b → count_key k a = count_key k b.
Proof. intros H. unfold count_key, matching. by rewrite H. Qed.



(** Every row of a list built from one key has that key. *)
Lemma count_key_same (k k' : key) (rs : list row) :
  Forall (λ r : row, r.1 = k') rs →
  count_key k rs = if decide (k' = k) then length rs else 0.
Proof.
  induction 1 as [|r rs Hr _ IH]; [by destruct (decide _)|].
  rewrite count_key_cons, IH, Hr. destruct (decide (k' = k)); simpl; lia.
Qed.

Lemma count_key_join_left (R : frame) (l : row) (k : key) :
  count_key k (join_left R l) =
    if decide (l.1 = k) then Nat.max 1 (count_key k (rows R)) else 0.
Proof.
  rewrite (count_key_same k l.1).
  - destruct (decide (l.1 = k)) as [<-|]; [|done].
    unfold join_left, count_key.
    destruct (matching l.1 (rows R)); simpl; [done|].
    rewrite length_fmap. lia.
  - apply Forall_forall. intros x Hx.
    apply elem_of_join_left in Hx as [(? & _ & _ & ->)|[_ ->]]; done.
Qed.

Lemma count_key_bind_join_left (R : frame) (ls : list row) (k : key) :
  count_key k (ls ≫= join_left R) =
    count_key k ls * Nat.max 1 (count_key k (rows R)).
Proof.
  induction ls as [|l ls IH]; [done|].
  rewrite bind_cons, count_key_app, IH, count_key_join_left, count_key_cons.
  destruct (decide (l.1 = k)); lia.
Qed.

Lemma count_key_fmap_same_key (f : row → row) (rs : list row) (k : key) :
  (∀ r, (f r).1 = r.1) → count_key k (f <$> rs) = count_key k rs.
Proof.
  intros Hf. induction rs as [|r rs IH]; [done|].
  rewrite fmap_cons, !count_key_cons, IH, Hf. done.
Qed.

Lemma count_key_join_right_only (L R : frame) (k : key) :
  count_key k (join_right_only L R) =
    if decide (count_key k (rows L) = 0) then count_key k (rows R) else 0.
Proof.
  unfold join_right_only. rewrite count_key_fmap_same_key by done.
  induction (rows R) as [|r rs IH]; [by destruct (decide _)|].
  rewrite filter_cons, (count_key_cons k r rs).
  assert (matching r.1 (rows L) = [] ↔ count_key r.1 (rows L) = 0) as Hz.
  { unfold count_key. by destruct (matching r.1 (rows L)). }
  destruct (decide (matching r.1 (rows L) = [])) as [E|E].
  - rewrite count_key_cons, IH.
    destruct (decide (r.1 = k)) as [<-|]; [|by destruct (decide _)].
    apply Hz in E. by destruct (decide (count_key r.1 (rows L) = 0)).
  - rewrite IH. destruct (decide (r.1 = k)) as [<-|]; [|done].
    destruct (decide (count_key r.1 (rows L) = 0)); [|done]. tauto.
Qed.

(** The multiplicity of a key in an outer join. *)
Lemma count_key_merge_outer (L R : frame) (k : key) :
  count_key k (rows (merge_outer L R)) =
    count_key k (rows L) * Nat.max 1 (count_key k (rows R))
    + (if decide (count_key k (rows L) = 0) then count_key k (rows R) else 0).
Proof.
  unfold merge_outer. simpl.
  rewrite (count_key_perm _ _ _ (merge_sort_Permutation _ _)).
  by rewrite count_key_app, count_key_bind_join_left, count_key_join_right_only.
Qed.

(** *** The fold of outer joins over per-metric tables *)

Lemma lookup_nan_row (cols : list string) (c : string) :
  nan_row cols !! c = if decide (c ∈ cols) then Some CNaN else None.
Proof.
  induction cols as [|a cols IH].
  - change (nan_row []) with (∅ : gmap string cell).
    rewrite lookup_empty. destruct (decide (c ∈ [])) as [H|]; [|done].
    by apply elem_of_nil in H.
  - change (nan_row (a :: cols)) with (<[a := CNaN]> (nan_row cols)).
    rewrite lookup_insert. destruct (decide (a = c)) as [->|Hne].
    + rewrite decide_True; [done|]. apply elem_of_cons. by left.
    + rewrite IH. destruct (decide (c ∈ cols)) as [Hin|Hno].
      * rewrite decide_True; [done|]. apply elem_of_cons. by right.
      * rewrite decide_False; [done|]. rewrite elem_of_cons. naive_solver.
Qed.

Lemma elem_of_to_frame (nt : named_table) (x : row) :
  x ∈ rows (to_frame nt) ↔ ∃ v, (x.1, v) ∈ nt.2 ∧ x.2 = {[ nt.1 := v ]}.
Proof.
  unfold to_frame, rename_value. simpl. rewrite list_elem_of_fmap. split.
  - intros ([k v] & -> & H). by exists v.
  - intros (v & H & Hx). exists (x.1, v). split; [|done].
    destruct x as [k m]. simpl in *. by subst.
Qed.

Lemma keys_of_to_frame (nt : named_table) (k : key) :
  k ∈ keys_of (rows (to_frame nt)) ↔ k ∈ table_keys nt.2.
Proof.
  unfold to_frame, rename_value, keys_of, table_keys. simpl.
  by rewrite <- list_fmap_compose.
Qed.

Lemma elem_of_table_keys (t : table) (k : key) :
  k ∈ table_keys t ↔ ∃ v, (k, v) ∈ t.
Proof.
  unfold table_keys. rewrite list_elem_of_fmap. split.
  - intros ([k' v] & -> & H). by exists v.
  - intros (v & H). by exists (k, v).
Qed.

(** A single table, read as a frame, has exactly the rows [merged_row]
    allows. *)
Lemma merged_row_single (nt : named_table) (x : row) :
  x ∈ rows (to_frame nt) ↔ merged_row [nt] x.
Proof.
  rewrite elem_of_to_frame. unfold merged_row. split.
  - intros (v & Hv & Hx). split; [|split].
    + exists nt. split; [by apply list_elem_of_singleton|].
      apply elem_of_table_keys. by exists v.
    + intros c Hc. rewrite Hx. apply lookup_singleton_ne.
      intros <-. apply Hc. simpl. by apply list_elem_of_singleton.
    + intros nt' ->%list_elem_of_singleton. exists v.
      rewrite Hx, lookup_singleton_eq. split; [done|]. by left.
  - intros ((nt' & ->%list_elem_of_singleton & Hk) & Hdom & Hsel).
    destruct (Hsel nt) as (v & Hv & Hs); [by apply list_elem_of_singleton|].
    exists v. split.
    + by destruct Hs as [?|[? _]].
    + apply map_eq. intros c. destruct (decide (c = nt.1)) as [->|Hne].
      * by rewrite Hv, lookup_singleton_eq.
      * rewrite lookup_singleton_ne by done. apply Hdom. simpl.
        by rewrite list_elem_of_singleton.
Qed.

(** One more table joined to a frame that already satisfies
    [merged_row]. *)
Section merge_step.

Variables (done : list named_table) (nt : named_table) (acc : frame).

Hypothesis Hcols : columns acc = done.*1.
Hypothesis Hfresh : nt.1 ∉ done.*1.
Hypothesis Hkeys :
  ∀ k, k ∈ keys_of (rows acc) ↔ ∃ nt', nt' ∈ done ∧ k ∈ table_keys nt'.2.
Hypothesis Hacc : ∀ x, x ∈ rows acc ↔ merged_row done x.

Lemma step_other_name (nt' : named_table) : nt' ∈ done → nt'.1 ≠ nt.1.
Proof.
  intros Hin Heq. apply Hfresh. rewrite <- Heq.
  apply list_elem_of_fmap. by exists nt'.
Qed.

Lemma step_outside (c : string) :
  c ∉ (done ++ [nt]).*1 ↔ (c ∉ done.*1) ∧ c ≠ nt.1.
Proof.
  rewrite fmap_app, elem_of_app. simpl. rewrite list_elem_of_singleton. tauto.
Qed.

Lemma step_no_key (k : key) (nt' : named_table) :
  k ∉ keys_of (rows acc) → nt' ∈ done → k ∉ table_keys nt'.2.
Proof. intros Hno Hin Hk. apply Hno, Hkeys. by exists nt'. Qed.

(** The three ways a row gets into the join, spelled out. *)
Lemma step_cases (k : key) (m : gmap string cell) :
  (k, m) ∈ rows (merge_outer acc (to_frame nt)) ↔
    (∃ l, l ∈ rows acc
          ∧ ((∃ v, (l.1, v) ∈ nt.2 ∧ (k, m) = (l.1, l.2 ∪ {[ nt.1 := v ]}))
             ∨ ((l.1 ∉ table_keys nt.2)
                ∧ (k, m) = (l.1, l.2 ∪ nan_row [nt.1]))))
    ∨ (∃ v, (k, v) ∈ nt.2 ∧ (k ∉ keys_of (rows acc))
            ∧ m = nan_row done.*1 ∪ {[ nt.1 := v ]}).
Proof.
  rewrite elem_of_merge_outer, elem_of_join_right_only.
  setoid_rewrite elem_of_join_left. setoid_rewrite elem_of_to_frame.
  setoid_rewrite keys_of_to_frame. simpl. rewrite Hcols. split.
  - intros [(l & Hl & [(r & (v & Hv & Hr) & Hk & Heq)|Hpad])
           |(r & (v & Hv & Hr) & Hno & [= -> ->])].
    + left. exists l. split; [done|]. left. exists v.
      split; [by rewrite <- Hk|by rewrite Heq, Hr].
    + left. exists l. by split; [|right].
    + right. exists v. by rewrite Hr.
  - intros [(l & Hl & [(v & Hv & Heq)|Hpad])|(v & Hv & Hno & ->)].
    + left. exists l. split; [done|]. left. exists (l.1, {[ nt.1 := v ]}).
      simpl. split; [by exists v|done].
    + left. exists l. by split; [|right].
    + right. exists (k, {[ nt.1 := v ]}). simpl. split; [by exists v|done].
Qed.

Lemma merged_row_step_sound (x : row) :
  x ∈ rows (merge_outer acc (to_frame nt)) → merged_row (done ++ [nt]) x.
Proof.
  destruct x as [k m]. rewrite step_cases.
  intros [(l & Hl & Hcase)|(v & Hv & Hno & ->)].
  - apply Hacc in Hl as ((nt0 & Hnt0 & Hk0) & Hdom & Hsel).
    assert (l.2 !! nt.1 = None) as Hnone by by apply Hdom.
    assert (∃ v, selects nt.2 l.1 v ∧ (k, m) = (l.1, l.2 ∪ {[ nt.1 := v ]}))
      as (v & Hs & [= -> ->]).
    { destruct Hcase as [(v & Hv & Heq)|[Hnokey Heq]].
      - exists v. split; [by left|done].
      - exists CNaN. split; [by right|done]. }
    split; [|split]; simpl.
    + exists nt0. split; [|done]. apply elem_of_app. by left.
    + intros c [Hc1 Hc2]%step_outside. rewrite lookup_union_None. split.
      * by apply Hdom.
      * by apply lookup_singleton_ne.
    + intros nt' [Hin| ->%list_elem_of_singleton]%elem_of_app.
      * destruct (Hsel nt' Hin) as (v' & Hv' & Hs'). exists v'.
        split; [|done]. by apply lookup_union_Some_l.
      * exists v. split; [|done].
        rewrite lookup_union_r by done. apply lookup_singleton_eq.
  - split; [|split]; simpl.
    + exists nt. split; [apply elem_of_app; right; by apply list_elem_of_singleton|].
      apply elem_of_table_keys. by exists v.
    + intros c [Hc1 Hc2]%step_outside. rewrite lookup_union_None. split.
      * rewrite lookup_nan_row. by rewrite decide_False.
      * by apply lookup_singleton_ne.
    + intros nt' [Hin| ->%list_elem_of_singleton]%elem_of_app.
      * exists CNaN. split; [|right; split; [by apply step_no_key|done]].
        apply lookup_union_Some_l. rewrite lookup_nan_row.
        rewrite decide_True; [done|]. apply list_elem_of_fmap. by exists nt'.
      * exists v. split; [|by left].
        rewrite lookup_union_r; [apply lookup_singleton_eq|].
        rewrite lookup_nan_row. by rewrite decide_False.
Qed.

(** A row with one more column is its part on the old columns joined
    with that column. *)
Lemma split_last_column (m : gmap string cell) (v : cell) :
  m !! nt.1 = Some v → m = delete nt.1 m ∪ {[ nt.1 := v ]}.
Proof.
  intros Hv. apply map_eq. intros c.
  destruct (decide (c = nt.1)) as [->|Hcne].
  - rewrite Hv. symmetry. rewrite lookup_union_r by apply lookup_delete_eq.
    apply lookup_singleton_eq.
  - rewrite lookup_union_l by by apply lookup_singleton_ne.
    by rewrite lookup_delete_ne.
Qed.

Lemma merged_row_step_complete (x : row) :
  merged_row (done ++ [nt]) x → x ∈ rows (merge_outer acc (to_frame nt)).
Proof.
  destruct x as [k m]. rewrite step_cases.
  intros ((nt0 & Hnt0 & Hk0) & Hdom & Hsel). simpl in *.
  destruct (Hsel nt) as (v & Hv & Hs);
    [apply elem_of_app; right; by apply list_elem_of_singleton|].
  simpl in *.
  destruct (decide (k ∈ keys_of (rows acc))) as [Hin|Hno].
  - left. exists (k, delete nt.1 m). split.
    + apply Hacc. split; [|split]; simpl.
      * by apply Hkeys.
      * intros c Hc. destruct (decide (c = nt.1)) as [->|Hcne].
        -- apply lookup_delete_eq.
        -- rewrite lookup_delete_ne by done. by apply Hdom, step_outside.
      * intros nt' Hin'. destruct (Hsel nt') as (v' & Hv' & Hs').
        { apply elem_of_app. by left. }
        exists v'. split; [|done].
        rewrite lookup_delete_ne; [done|]. intros Heq. by apply (step_other_name nt').
    + simpl. destruct Hs as [Hs|[Hnokey ->]].
      * left. exists v. split; [done|]. f_equal. by apply split_last_column.
      * right. split; [done|]. f_equal. by apply split_last_column.
  - apply elem_of_app in Hnt0 as [Hnt0|Hnt0]; [by destruct (step_no_key k nt0)|].
    apply list_elem_of_singleton in Hnt0 as ->.
    destruct Hs as [Hs|[Hnokey _]]; [|done].
    right. exists v. split; [done|]. split; [done|]. apply map_eq. intros c.
    destruct (decide (c = nt.1)) as [->|Hcne].
    + rewrite Hv. symmetry. rewrite lookup_union_r; [apply lookup_singleton_eq|].
      rewrite lookup_nan_row. by rewrite decide_False.
    + rewrite lookup_union_l by by apply lookup_singleton_ne.
      rewrite lookup_nan_row. destruct (decide (c ∈ done.*1)) as [Hcin|Hcout].
      * apply list_elem_of_fmap in Hcin as (nt' & -> & Hin').
        destruct (Hsel nt') as (v' & Hv' & Hs').
        { apply elem_of_app. by left. }
        rewrite Hv'. destruct Hs' as [Hs'|[_ ->]]; [|done].
        destruct (step_no_key k nt' Hno Hin'). apply elem_of_table_keys. by exists v'.
      * by apply Hdom, step_outside.
Qed.

Lemma merged_row_step (x : row) :
  x ∈ rows (merge_outer acc (to_frame nt)) ↔ merged_row (done ++ [nt]) x.
Proof. split; [apply merged_row_step_sound|apply merged_row_step_complete]. Qed.

End merge_step.

Lemma merged_row_foldl (ts done : list named_table) (acc : frame) :
  columns acc = done.*1 →
  NoDup (done ++ ts).*1 →
  (∀ k, k ∈ keys_of (rows acc) ↔ ∃ nt', nt' ∈ done ∧ k ∈ table_keys nt'.2) →
  (∀ x, x ∈ rows acc ↔ merged_row done x) →
  ∀ x, x ∈ rows (foldl merge_outer acc (to_frame <$> ts))
       ↔ merged_row (done ++ ts) x.
Proof.
  revert done acc. induction ts as [|nt ts IH]; intros done acc Hcols Hnd Hkeys Hacc.
  - simpl. by rewrite app_nil_r.
  - simpl. intros x.
    replace (done ++ nt :: ts) with ((done ++ [nt]) ++ ts) in *
      by by rewrite <- app_assoc.
    assert (nt.1 ∉ done.*1) as Hfresh.
    { rewrite !fmap_app in Hnd. apply NoDup_app in Hnd as [Hnd _].
      apply NoDup_app in Hnd as (_ & Hdis & _). intros Hin.
      apply (Hdis _ Hin). simpl. by apply list_elem_of_singleton. }
    apply IH; [|done| |].
    + simpl. rewrite Hcols. by rewrite fmap_app.
    + intros k. rewrite keys_of_merge_outer, Hkeys, keys_of_to_frame.
      setoid_rewrite elem_of_app. setoid_rewrite list_elem_of_singleton.
      naive_solver.
    + by apply merged_row_step.
Qed.

(** The rows of the fold of outer joins, whatever the order. *)
Lemma reduce_merge_rows (ts : list named_table) (merged : frame) :
  NoDup ts.*1 →
  reduce_merge (to_frame <$> ts) = Some merged →
  ∀ x, x ∈ rows merged ↔ merged_row ts x.
Proof.
  destruct ts as [|nt ts]; [done|]. intros Hnd [= <-].
  apply (merged_row_foldl ts [nt]); [done|done| |].
  - intros k. rewrite keys_of_to_frame.
    setoid_rewrite list_elem_of_singleton. naive_solver.
  - apply merged_row_single.
Qed.

Lemma merged_row_perm (ts ts' : list named_table) (x : row) :
  ts ≡ₚ ts' → merged_row ts x → merged_row ts' x.
Proof.
  intros Hp ((nt & Hnt & Hk) & Hdom & Hsel). split; [|split].
  - exists nt. by rewrite <- Hp.
  - intros c Hc. apply Hdom. by rewrite Hp.
  - intros nt' Hin. apply Hsel. by rewrite Hp.
Qed.

Lemma keys_of_foldl (fs : list frame) (f : frame) (k : key) :
  k ∈ keys_of (rows (foldl merge_outer f fs)) ↔
    k ∈ keys_of (rows f) ∨ ∃ g, g ∈ fs ∧ k ∈ keys_of (rows g).
Proof.
  revert f. induction fs as [|g fs IH]; intros f; simpl.
  - setoid_rewrite elem_of_nil. naive_solver.
  - rewrite IH, keys_of_merge_outer. setoid_rewrite elem_of_cons. naive_solver.
Qed.



End FrameFacts.

(** ** The merge of [main] *)

Module MergeTheorems.
Import Numeric Frame Samples FrameFacts.




(** C8: the order in which the per-metric tables are folded through the
    outer join does not change the set of rows of the merged table (a row
    being its key and its named cells). *)
Theorem merge_order_independent (ts ts' : list named_table) :
  ts ≡ₚ ts' →
  NoDup ts.*1 →
  match reduce_merge (to_frame <$> ts), reduce_merge (to_frame <$> ts') with
  | Some merged, Some merged' => ∀ x, x ∈ rows merged ↔ x ∈ rows merged'
  | None, None => True
  | _, _ => False
  end.
Proof.
  intros Hp Hnd.
  assert (NoDup ts'.*1) as Hnd' by by rewrite <- Hp.
  destruct (reduce_merge (to_frame <$> ts)) as [merged|] eqn:E;
    destruct (reduce_merge (to_frame <$> ts')) as [merged'|] eqn:E'.
  - intros x.
    rewrite (reduce_merge_rows ts merged Hnd E x).
    rewrite (reduce_merge_rows ts' merged' Hnd' E' x).
    split; apply merged_row_perm; [done|by symmetry].
  - destruct ts' as [|??]; [|done]. apply Permutation_nil_r in Hp. by subst.
  - destruct ts as [|??]; [|done]. apply Permutation_nil_l in Hp. by subst.
  - done.
Qed.

Lemma merge_order_independent_witness :
  ∃ merged merged',
    reduce_merge (to_frame <$> [farms_table; wheat_table]) = Some merged
    ∧ reduce_merge (to_frame <$> [wheat_table; farms_table]) = Some merged'
    ∧ ∀ x, x ∈ rows merged ↔ x ∈ rows merged'.
Proof.
  do 2 eexists. split; [reflexivity|]. split; [reflexivity|].
  assert (NoDup [farms_table; wheat_table].*1) as Hnames.
  { by_evaluation. }
  exact (merge_order_independent [farms_table; wheat_table]
           [wheat_table; farms_table] (perm_swap _ _ _) Hnames).
Defined.

End MergeTheorems.

(** ** The cleaner *)

Module CleanerFacts.
Import Numeric Frame Pipeline TextFacts NumericFacts.

Lemma clean_value_float (d : decimal) : dec_wf d → clean_value (CFloat d) = Some d.
Proof.
  intros Hwf. unfold clean_value, astype_str, str_of_float.
  rewrite strip_replace_plain by apply render_float_plain.
  by apply to_numeric_str_of_float.
Qed.

Lemma clean_value_int (z : Z) : clean_value (CInt z) = Some (dec_of_Z z).
Proof.
  unfold clean_value, astype_str, str_of_int.
  rewrite strip_replace_plain by apply render_int_plain.
  apply to_numeric_str_of_int.
Qed.

Lemma clean_value_nan : clean_value CNaN = None.
Proof. reflexivity. Qed.

Lemma clean_value_wf (c : cell) (d : decimal) : clean_value c = Some d → dec_wf d.
Proof. apply to_numeric_wf. Qed.

Lemma clean_value_cell_of_value (c : cell) :
  clean_value (cell_of_value (clean_value c)) = clean_value c.
Proof.
  destruct (clean_value c) as [d|] eqn:E; simpl; [|done].
  apply clean_value_float. by apply (clean_value_wf c).
Qed.

Lemma clean_cell_idemp (c : cell) : clean_cell (clean_cell c) = clean_cell c.
Proof. unfold clean_cell. by rewrite clean_value_cell_of_value. Qed.

Lemma lookup_clean_row (cols : list string) (r : row) (c : string) :
  (clean_row cols r).2 !! c =
    if decide (c ∈ cols) then clean_cell <$> r.2 !! c else r.2 !! c.
Proof.
  unfold clean_row. simpl. generalize (r.2). clear r.
  induction cols as [|a cols IH]; intros m.
  - case_decide as H; [by apply elem_of_nil in H|done].
  - cbn [foldl]. rewrite IH, lookup_alter.
    destruct (decide (a = c)) as [->|Hne].
    + rewrite (decide_True (P := c ∈ c :: cols)) by (apply elem_of_cons; by left).
      destruct (decide (c ∈ cols)); [|done].
      destruct (m !! c); simpl; [|done]. by rewrite clean_cell_idemp.
    + destruct (decide (c ∈ cols)) as [Hin|Hno].
      * rewrite decide_True; [done|]. apply elem_of_cons. by right.
      * rewrite decide_False; [done|]. rewrite elem_of_cons. naive_solver.
Qed.

Lemma foldl_clean_column (cols : list string) (f : frame) :
  columns (foldl clean_column f cols) = columns f
  ∧ rows (foldl clean_column f cols) = clean_row cols <$> rows f.
Proof.
  revert f. induction cols as [|a cols IH]; intros f; simpl.
  - split; [done|]. rewrite <- (list_fmap_id (rows f)) at 1.
    apply list_fmap_ext. by intros _ [k m] _.
  - destruct (IH (clean_column f a)) as [-> ->]. simpl. split; [done|].
    by rewrite <- list_fmap_compose.
Qed.

Lemma columns_clean_frame (f : frame) : columns (clean_frame f) = columns f.
Proof. apply foldl_clean_column. Qed.

Lemma rows_clean_frame (f : frame) :
  rows (clean_frame f) = clean_row (cols_to_clean f) <$> rows f.
Proof. apply foldl_clean_column. Qed.



Lemma elem_of_cols_to_clean (f : frame) (col : string) :
  col ∈ cols_to_clean f ↔ col ∈ METRICS.*1 ∧ col ∈ columns f.
Proof. unfold cols_to_clean. rewrite list_elem_of_filter. tauto. Qed.

End CleanerFacts.

Module CleanerTheorems.
Import Numeric Frame Pipeline Samples TextFacts NumericFacts CleanerFacts.

Example clean_cell_number : clean_cell (CStr " 1,234 ") = CFloat (Dec 1234 0).
Proof. reflexivity. Qed.

Example clean_cell_suppressed : clean_cell (CStr "(D)") = CNaN.
Proof. reflexivity. Qed.

Example clean_cell_zero : clean_cell (CStr "0") = CFloat dec_zero.
Proof. reflexivity. Qed.

Example clean_cell_fraction : clean_cell (CStr "12.50") = CFloat (Dec 125 1).
Proof. reflexivity. Qed.

Example clean_cell_absent : clean_cell CNaN = CNaN.
Proof. reflexivity. Qed.




End CleanerTheorems.

(** ** The derived column *)

Module RollupFacts.
Import Numeric Frame Pipeline TextFacts NumericFacts CleanerFacts.


Lemma row_sum_numeric (cs : list cell) (acc : decimal) :
  dec_wf acc → Forall numeric_cell cs →
  row_sum acc (fillna0 <$> cs) = Some (foldl dec_add acc (omap cell_present cs)).
Proof.
  intros Hacc Hcs. revert acc Hacc.
  induction Hcs as [|c cs Hc _ IH]; intros acc Hacc; [done|].
  destruct c as [|s|z|d]; [| done | |]; cbn [fmap list_fmap fillna0 isna omap row_sum cell_number cell_present mbind option_bind foldl].
  - change (dec_of_Z 0) with dec_zero. rewrite dec_add_zero_r by done. by apply IH.
  - apply IH, dec_add_wf.
  - apply IH, dec_add_wf.
Qed.

Lemma forallb_isna_present (cs : list cell) :
  Forall numeric_cell cs →
  forallb isna cs = true ↔ omap cell_present cs = [].
Proof.
  induction 1 as [|c cs Hc _ IH]; [done|].
  destruct c; simpl in *; try done. 
Qed.

(** The rollup of a row of numeric cells: NaN when no cell holds a
    number, and the sum of the numbers otherwise. *)
Lemma rollup_cell_numeric (cs : list cell) :
  Forall numeric_cell cs →
  rollup_cell cs =
    Some (match omap cell_present cs with
          | [] => CNaN
          | vs => CFloat (sum_decimals vs)
          end).
Proof.
  intros Hcs. unfold rollup_cell.
  rewrite row_sum_numeric by (done || by left). simpl.
  pose proof (forallb_isna_present cs Hcs) as Hall.
  destruct (omap cell_present cs) as [|v vs] eqn:E.
  - by rewrite (proj2 Hall eq_refl).
  - destruct (forallb isna cs); [|done]. by destruct Hall as [Hall _]; specialize (Hall eq_refl).
Qed.

Lemma grass_seed_cols_metrics : Forall (λ c, c ∈ METRICS.*1) grass_seed_cols.
Proof. by_evaluation. Qed.

Lemma grass_seed_acres_fresh : "grass_seed_acres" ∉ METRICS.*1.
Proof. by_evaluation. Qed.

(** After cleaning, the grass-seed columns of every row are numeric. *)
Lemma cleaned_grass_cells_numeric (merged : frame) (r : row) :
  r ∈ rows (clean_frame merged) →
  Forall numeric_cell (row_cells (existing_grass_cols (clean_frame merged)) r).
Proof.
  rewrite rows_clean_frame. intros (r0 & -> & _)%list_elem_of_fmap.
  unfold row_cells. apply Forall_fmap, Forall_forall. intros c Hc. cbv beta.
  unfold compose.
  unfold existing_grass_cols in Hc. apply list_elem_of_filter in Hc as [Hcol Hg].
  rewrite columns_clean_frame in Hcol.
  assert (c ∈ cols_to_clean merged) as Hclean.
  { apply elem_of_cols_to_clean. split; [|done].
    by apply (proj1 (Forall_forall _ _) grass_seed_cols_metrics). }
  pose proof (lookup_clean_row (cols_to_clean merged) r0 c) as Hl.
  rewrite decide_True in Hl by done. rewrite Hl.
  destruct (r0.2 !! c) as [c0|]; simpl; [|done].
  unfold clean_cell. by destruct (clean_value c0).
Qed.


End RollupFacts.

Module RollupTheorems.
Import Numeric Frame Pipeline Samples TextFacts NumericFacts CleanerFacts RollupFacts.

Example grass_frame_rollup :
  (λ f, (λ r : row, r.2 !! "grass_seed_acres") <$> rows f)
    <$> add_rollup (clean_frame grass_frame)
  = Some [Some CNaN; Some (CFloat dec_zero); Some (CFloat (Dec 37505 1))].
Proof. reflexivity. Qed.



End RollupTheorems.

(** ** Fetching and the run of the script *)

Module RetryFacts.
Import Pipeline.



End RetryFacts.

Module RetryTheorems.
Import Pipeline Samples RetryFacts.

Example beef_world_retry :
  api beef_world (Query "CATTLE, COWS, BEEF - INVENTORY" "OR" None) = Data lane_beef.
Proof. reflexivity. Qed.

Example down_world_retry :
  fetch_with_retry (http down_world (Query "HAY - ACRES HARVESTED" "WA" None))
    MAX_RETRIES = None.
Proof. reflexivity. Qed.


End RetryTheorems.

Module FetchFacts.
Import Numeric Frame Pipeline.

Lemma fetch_states_ok (w : world) (desc : string) (ex : extras)
    (states : list string) (acc : list table) :
  (∀ st, st ∈ states → api w (Query desc st ex) ≠ Malformed) →
  ∃ acc', fetch_states w desc ex acc states = inr acc'
          ∧ concat acc' = concat acc ++ (states ≫= state_rows w desc ex).
Proof.
  revert acc. induction states as [|st states IH]; intros acc Hok.
  - exists acc. split; [done|]. simpl. by rewrite app_nil_r.
  - assert (api w (Query desc st ex) ≠ Malformed) as Hst
      by (apply Hok, elem_of_cons; by left).
    assert (∀ st', st' ∈ states → api w (Query desc st' ex) ≠ Malformed) as Hrest
      by (intros st' Hin; apply Hok, elem_of_cons; by right).
    cbn [fetch_states]. unfold fetch_state. rewrite bind_cons.
    unfold state_rows at 1.
    destruct (api w (Query desc st ex)) as [| |[|r recs]]; [|done| |].
    + destruct (IH acc Hrest) as (acc' & -> & Hc). by exists acc'.
    + destruct (IH acc Hrest) as (acc' & -> & Hc). by exists acc'.
    + destruct (IH (acc ++ [select_columns <$> r :: recs]) Hrest) as (acc' & -> & Hc).
      exists acc'. split; [done|]. rewrite Hc.
      rewrite concat_app. simpl. rewrite app_nil_r. by rewrite <- app_assoc.
Qed.

Lemma elem_of_fetched_rows (w : world) (desc : string) (ex : extras)
    (kv : key * cell) :
  kv ∈ fetched_rows w desc ex ↔
    ∃ st recs r, st ∈ TARGET_STATES ∧ api w (Query desc st ex) = Data recs
                 ∧ r ∈ recs ∧ kv = select_columns r.
Proof.
  unfold fetched_rows. rewrite list_elem_of_bind. unfold state_rows. split.
  - intros (st & Hkv & Hst).
    destruct (api w (Query desc st ex)) as [| |recs] eqn:E;
      [by apply elem_of_nil in Hkv..|].
    apply list_elem_of_fmap in Hkv as (r & -> & Hr). by exists st, recs, r.
  - intros (st & recs & r & Hst & E & Hr & ->). exists st. split; [|done].
    rewrite E. apply list_elem_of_fmap. by exists r.
Qed.

(** *** The loop of [main] *)

Lemma fetch_step_spec (w : world) (frames : list frame) (effs : list effect)
    (m : string * (string * extras)) :
  ∃ effs', fetch_step w (frames, effs) m
             = (frames ++ option_list (frame_of_metric w m), effs ++ effs')
           ∧ Forall cache_write effs'.
Proof.
  destruct m as [col [desc ex]]. unfold fetch_step, frame_of_metric. simpl.
  destruct (fetch_metric_multistate w desc col ex) as [e|[df written]].
  - exists []. by rewrite !app_nil_r.
  - exists (match written with Some (n, t) => [CacheWrite n t] | None => [] end).
    split.
    + destruct df; simpl; by rewrite ?app_nil_r.
    + destruct written as [[n t]|]; by repeat constructor.
Qed.

Lemma foldl_fetch_step (w : world) (ms : list (string * (string * extras)))
    (frames : list frame) (effs : list effect) :
  ∃ effs', foldl (fetch_step w) (frames, effs) ms
             = (frames ++ omap (frame_of_metric w) ms, effs ++ effs')
           ∧ Forall cache_write effs'.
Proof.
  revert frames effs. induction ms as [|m ms IH]; intros frames effs.
  - exists []. by rewrite !app_nil_r.
  - cbn [foldl]. destruct (fetch_step_spec w frames effs m) as (e1 & -> & H1).
    destruct (IH (frames ++ option_list (frame_of_metric w m)) (effs ++ e1))
      as (e2 & -> & H2).
    exists (e1 ++ e2). split.
    + rewrite <- !app_assoc. do 2 f_equal.
      simpl. by destruct (frame_of_metric w m).
    + by apply Forall_app.
Qed.

(** The frames [main] merges are the non-empty per-metric tables, in
    catalog order, and the loop writes nothing but cache files. *)
Lemma fetch_all_spec (w : world) :
  (fetch_all w).1 = omap (frame_of_metric w) METRICS
  ∧ Forall cache_write (fetch_all w).2.
Proof.
  unfold fetch_all.
  destruct (foldl_fetch_step w METRICS [] []) as (effs' & -> & H). done.
Qed.

End FetchFacts.

Module FetchTheorems.
Import Numeric Frame Pipeline Samples FetchFacts.

(** The run on [beef_world] keeps the three records as three rows: the
    withheld total ends as NaN and is not replaced by 7500. *)
Example beef_world_run :
  main beef_world =
    ( [ CacheWrite "beef_cattle_head" (select_columns <$> lane_beef);
        OutputWrite
          (Frame ["beef_cattle_head"]
             [ (Key "OREGON" "LANE" 2022, {[ "beef_cattle_head" := CNaN ]});
               (Key "OREGON" "LANE" 2022,
                 {[ "beef_cattle_head" := CFloat (Dec 5000 0) ]});
               (Key "OREGON" "LANE" 2022,
                 {[ "beef_cattle_head" := CFloat (Dec 2500 0) ]}) ]) ],
      Returned ).
Proof. by vm_compute. Qed.

(** C4: a successful fetch of a metric keeps, of every returned record,
    the key fields and the raw [Value] and nothing else, whatever the
    record's category label; the table goes to [main]'s merge as it is,
    and cleaning turns a suppression marker into NaN. *)
Theorem fetch_keeps_raw_values (w : world) (desc name : string) (ex : extras) :
  cache w !! name = None →
  (∀ st, st ∈ TARGET_STATES → api w (Query desc st ex) ≠ Malformed) →
  (∃ written,
      fetch_metric_multistate w desc name ex = inr (fetched_rows w desc ex, written))
  ∧ (∀ kv, kv ∈ fetched_rows w desc ex ↔
       ∃ st recs r, st ∈ TARGET_STATES ∧ api w (Query desc st ex) = Data recs
                    ∧ r ∈ recs
                    ∧ kv = (Key (r_state_name r) (r_county_name r) (r_year r),
                            CStr (r_Value r)))
  ∧ ((name, (desc, ex)) ∈ METRICS → fetched_rows w desc ex ≠ [] →
       rename_value name (fetched_rows w desc ex) ∈ (fetch_all w).1)
  ∧ (∀ r, clean_cell (select_columns r).2
          = cell_of_value (to_numeric (Text.replace_commas (Text.strip (r_Value r)))))
  ∧ clean_cell (CStr "(D)") = CNaN.
Proof.
  intros Hcache Hok.
  assert (∃ written,
      fetch_metric_multistate w desc name ex = inr (fetched_rows w desc ex, written))
    as Hfetch.
  { unfold fetch_metric_multistate. rewrite Hcache.
    destruct (fetch_states_ok w desc ex TARGET_STATES [] Hok) as (acc' & -> & Hc).
    change (concat acc' = fetched_rows w desc ex) in Hc. rewrite <- Hc.
    destruct acc'; by eexists. }
  split; [exact Hfetch|]. split; [apply elem_of_fetched_rows|].
  split; [|done].
  intros Hm Hne. destruct Hfetch as (written & Hfetch).
  rewrite (proj1 (fetch_all_spec w)). apply list_elem_of_omap.
  exists (name, (desc, ex)). split; [done|].
  unfold frame_of_metric. simpl. rewrite Hfetch.
  by destruct (fetched_rows w desc ex).
Qed.

Lemma fetch_keeps_raw_values_witness :
  (∃ written,
      fetch_metric_multistate beef_world "CATTLE, COWS, BEEF - INVENTORY"
        "beef_cattle_head" None
      = inr (fetched_rows beef_world "CATTLE, COWS, BEEF - INVENTORY" None, written))
  ∧ clean_cell (CStr "(D)") = CNaN.
Proof.
  destruct (fetch_keeps_raw_values beef_world "CATTLE, COWS, BEEF - INVENTORY"
              "beef_cattle_head" None) as (H & _ & _ & _ & H').
  - reflexivity.
  - intros st _. unfold api, fetch_with_retry. simpl. by case_bool_decide.
  - by split.
Defined.

End FetchTheorems.

Module MainTheorems.
Import Numeric Frame Pipeline Samples FetchFacts.

Lemma empty_world_no_data : no_data empty_world.
Proof.
  intros [col [desc ex]] _. unfold frame_of_metric, fetch_metric_multistate.
  simpl. by rewrite lookup_empty.
Qed.

(** C10, as stated, fails: when no metric yields data the script ends
    normally, not abnormally. *)
Lemma no_data_exit_counterexample :
  no_data empty_world ∧ script empty_world = ([], ExitNormal).
Proof. split; [apply empty_world_no_data|by vm_compute]. Qed.

(** C10 (amended): when no metric yields data, [main] returns before
    merging and writing, no output file is written, and the process ends
    normally; it ends abnormally exactly when an exception leaves
    [main]. *)
Theorem no_data_returns_without_output (w : world) :
  no_data w →
  main w = ((fetch_all w).2, Returned)
  ∧ ¬ writes_output (main w).1
  ∧ (script w).2 = ExitNormal.
Proof.
  intros Hno.
  destruct (fetch_all_spec w) as [Hframes Heffs].
  assert ((fetch_all w).1 = []) as Hnil.
  { rewrite Hframes. apply elem_of_nil_inv. intros f Hf.
    apply list_elem_of_omap in Hf as (m & Hm & Hf). by rewrite (Hno m Hm) in Hf. }
  assert (main w = ((fetch_all w).2, Returned)) as Hmain.
  { unfold main. destruct (fetch_all w) as [frames effs].
    simpl in Hnil. by rewrite Hnil. }
  split; [done|]. split.
  - rewrite Hmain. intros (f & Hf).
    change (OutputWrite f ∈ (fetch_all w).2) in Hf.
    by apply (proj1 (Forall_forall _ _) Heffs) in Hf.
  - unfold script. by rewrite Hmain.
Qed.

Lemma no_data_returns_without_output_witness :
  main empty_world = ((fetch_all empty_world).2, Returned)
  ∧ ¬ writes_output (main empty_world).1
  ∧ (script empty_world).2 = ExitNormal.
Proof. apply (no_data_returns_without_output empty_world), empty_world_no_data. Defined.

(** The abnormal exit is the exit of a raised exception. *)
Lemma script_abnormal_iff (w : world) :
  (script w).2 = ExitAbnormal ↔ (main w).2 = Raised.
Proof. unfold script. destruct (main w) as [effs []]; simpl; split; done. Qed.

(** A run that fails while writing the output does end abnormally. *)
Example unwritable_output_exit :
  (script unwritable_world).2 = ExitAbnormal.
Proof. by vm_compute. Qed.

End MainTheorems.

(** ** The disclosure reconciler *)

Module ReconcilerTheorems.
Import Numeric Pipeline Reconciler Samples.

Example scenario_suppressed_total :
  process_county_records
    [total_row "(D)"; part_row "HEAD: (1 TO 9)" "5,000"; part_row "HEAD: (10 TO 19)" "2,500"]
  = (Some (Dec 7500 0), true).
Proof. reflexivity. Qed.

Example scenario_genuine_total :
  process_county_records
    [part_row "HEAD: (1 TO 9)" "5,000"; total_row "12,345"; part_row "HEAD: (10 TO 19)" "(D)"]
  = (Some (Dec 12345 0), false).
Proof. reflexivity. Qed.

Example scenario_empty : process_county_records [] = (None, false).
Proof. reflexivity. Qed.

Example scenario_all_suppressed :
  process_county_records [total_row "(D)"; part_row "HEAD: (1 TO 9)" "(D)"; part_row "X" "n/a"]
  = (None, false).
Proof. reflexivity. Qed.

Lemma elem_of_aggregate_values (records : list raw_record) (v : decimal) :
  v ∈ aggregate_values records ↔
    ∃ r, r ∈ records ∧ is_aggregate r = true ∧ parse_value (r_Value r) = Some v.
Proof.
  unfold aggregate_values. rewrite list_elem_of_omap. split.
  - intros (r & Hr & Hv). exists r. by destruct (is_aggregate r).
  - intros (r & Hr & Ha & Hv). exists r. by rewrite Ha.
Qed.

Lemma elem_of_subcategory_values (records : list raw_record) (v : decimal) :
  v ∈ subcategory_values records ↔
    ∃ r, r ∈ records ∧ is_aggregate r = false ∧ parse_value (r_Value r) = Some v.
Proof.
  unfold subcategory_values. rewrite list_elem_of_omap. split.
  - intros (r & Hr & Hv). exists r. by destruct (is_aggregate r).
  - intros (r & Hr & Ha & Hv). exists r. by rewrite Ha.
Qed.

Lemma subcategory_values_filter (records : list raw_record) :
  subcategory_values records =
    omap (λ r, parse_value (r_Value r))
         (filter (λ r, is_aggregate r = false) records).
Proof.
  unfold subcategory_values. induction records as [|r records IH]; [done|].
  rewrite filter_cons. destruct (is_aggregate r) eqn:E.
  - rewrite decide_False by done. simpl. rewrite E. exact IH.
  - rewrite decide_True by done. simpl. rewrite E.
    destruct (parse_value (r_Value r)); [f_equal|]; exact IH.
Qed.

(** C1: when some record of the aggregate category carries a genuine
    number, the reconciler returns the number of such a record (the first
    of them) and does not flag it as estimated, whatever the subcategory
    rows are. *)
Theorem aggregate_wins (records : list raw_record) :
  (∃ r, r ∈ records ∧ is_aggregate r = true
        ∧ is_Some (parse_value (r_Value r))) →
  ∃ r v, r ∈ records ∧ is_aggregate r = true
         ∧ parse_value (r_Value r) = Some v
         ∧ head (aggregate_values records) = Some v
         ∧ process_county_records records = (Some v, false).
Proof.
  intros (r & Hr & Ha & [v Hv]).
  assert (v ∈ aggregate_values records) as Hin
    by (apply elem_of_aggregate_values; by exists r).
  unfold process_county_records.
  destruct (aggregate_values records) as [|v0 vs] eqn:E;
    [by apply elem_of_nil in Hin|].
  assert (v0 ∈ aggregate_values records) as Hin0
    by (rewrite E; apply elem_of_cons; by left).
  apply elem_of_aggregate_values in Hin0 as (r0 & Hr0 & Ha0 & Hv0).
  by exists r0, v0.
Qed.

Lemma aggregate_wins_witness :
  ∃ r v, r ∈ [part_row "A" "5,000"; total_row "12,345"; part_row "B" "(D)"]
         ∧ is_aggregate r = true
         ∧ parse_value (r_Value r) = Some v
         ∧ head (aggregate_values
                   [part_row "A" "5,000"; total_row "12,345"; part_row "B" "(D)"])
           = Some v
         ∧ process_county_records
             [part_row "A" "5,000"; total_row "12,345"; part_row "B" "(D)"]
           = (Some v, false).
Proof.
  apply aggregate_wins. exists (total_row "12,345").
  split; [|split; [reflexivity|by eexists]].
  apply elem_of_cons. right. apply elem_of_cons. by left.
Defined.

(** C2: when no aggregate record carries a genuine number and some
    subcategory record does, the reconciler returns the sum of the genuine
    subcategory numbers, flagged as estimated; unusable subcategory values
    are left out of the sum. *)
Theorem subcategories_summed (records : list raw_record) :
  (∀ r, r ∈ records → is_aggregate r = true → parse_value (r_Value r) = None) →
  (∃ r, r ∈ records ∧ is_aggregate r = false
        ∧ is_Some (parse_value (r_Value r))) →
  process_county_records records =
    (Some (sum_values
             (omap (λ r, parse_value (r_Value r))
                   (filter (λ r, is_aggregate r = false) records))),
     true).
Proof.
  intros Hagg (r & Hr & Ha & [v Hv]).
  unfold process_county_records.
  destruct (aggregate_values records) as [|v0 vs] eqn:E.
  - rewrite <- subcategory_values_filter.
    assert (v ∈ subcategory_values records) as Hin
      by (apply elem_of_subcategory_values; by exists r).
    destruct (subcategory_values records); [by apply elem_of_nil in Hin|done].
  - assert (v0 ∈ aggregate_values records) as Hin0
      by (rewrite E; apply elem_of_cons; by left).
    apply elem_of_aggregate_values in Hin0 as (r0 & Hr0 & Ha0 & Hv0).
    by rewrite (Hagg r0 Hr0 Ha0) in Hv0.
Qed.

Lemma subcategories_summed_witness :
  process_county_records
    [total_row "(D)"; part_row "A" "5,000"; part_row "B" "(D)"; part_row "C" "2,500"]
  = (Some (Dec 7500 0), true).
Proof.
  rewrite (subcategories_summed
             [total_row "(D)"; part_row "A" "5,000"; part_row "B" "(D)";
              part_row "C" "2,500"]).
  - reflexivity.
  - intros r Hr Ha.
    repeat (apply elem_of_cons in Hr as [->|Hr]; [done|]).
    by apply elem_of_nil in Hr.
  - exists (part_row "A" "5,000"). split; [|split; [reflexivity|by eexists]].
    apply elem_of_cons. right. apply elem_of_cons. by left.
Defined.

(** C3: when no record carries a usable number (the empty list
    included) the reconciler returns no value, not flagged as estimated;
    being a total function it has a result, and raises nothing, on every
    list of records. *)
Theorem no_usable_number (records : list raw_record) :
  (∀ r, r ∈ records → parse_value (r_Value r) = None) →
  process_county_records records = (None, false)
  ∧ process_county_records [] = (None, false)
  ∧ ∀ records' : list raw_record,
      ∃ v flag, process_county_records records' = (v, flag).
Proof.
  intros Hnone. split; [|split; [done|]].
  - unfold process_county_records.
    destruct (aggregate_values records) as [|v0 vs] eqn:E.
    + destruct (subcategory_values records) as [|v1 vs1] eqn:E1; [done|].
      assert (v1 ∈ subcategory_values records) as Hin
        by (rewrite E1; apply elem_of_cons; by left).
      apply elem_of_subcategory_values in Hin as (r & Hr & _ & Hv).
      by rewrite (Hnone r Hr) in Hv.
    + assert (v0 ∈ aggregate_values records) as Hin
        by (rewrite E; apply elem_of_cons; by left).
      apply elem_of_aggregate_values in Hin as (r & Hr & _ & Hv).
      by rewrite (Hnone r Hr) in Hv.
  - intros records'. destruct (process_county_records records') as [v flag].
    by exists v, flag.
Qed.

Lemma no_usable_number_witness :
  process_county_records [total_row "(D)"; part_row "A" " (Z) "; part_row "B" "1.2.3"]
  = (None, false).
Proof.
  apply (no_usable_number [total_row "(D)"; part_row "A" " (Z) "; part_row "B" "1.2.3"]).
  intros r Hr.
  repeat (apply elem_of_cons in Hr as [->|Hr]; [done|]).
  by apply elem_of_nil in Hr.
Defined.

(** The reconciler returns no value only when nothing is usable. *)
Lemma no_value_only_if_unusable (records : list raw_record) (flag : bool) :
  process_county_records records = (None, flag) →
  ∀ r, r ∈ records → parse_value (r_Value r) = None.
Proof.
  unfold process_county_records. intros H r Hr.
  destruct (parse_value (r_Value r)) as [v|] eqn:Hv; [|done].
  destruct (is_aggregate r) eqn:Ha.
  - assert (v ∈ aggregate_values records) as Hin
      by (apply elem_of_aggregate_values; by exists r).
    destruct (aggregate_values records); [by apply elem_of_nil in Hin|done].
  - assert (v ∈ subcategory_values records) as Hin
      by (apply elem_of_subcategory_values; by exists r).
    destruct (aggregate_values records); [|done].
    destruct (subcategory_values records); [by apply elem_of_nil in Hin|done].
Qed.

End ReconcilerTheorems.

(** ** The cells of the written file *)

Module RunFacts.
Import Numeric Frame Pipeline FrameFacts CleanerFacts RollupFacts FetchFacts.

Lemma frame_of_metric_table (w : world) (m : string * (string * extras)) :
  frame_of_metric w m = to_frame <$> table_of_metric w m.
Proof.
  unfold frame_of_metric, table_of_metric.
  by destruct (fetch_metric_multistate w m.2.1 m.1 m.2.2) as [|[[|r df] written]].
Qed.

Lemma frames_of_tables (w : world) (ms : list (string * (string * extras))) :
  omap (frame_of_metric w) ms = to_frame <$> omap (table_of_metric w) ms.
Proof.
  induction ms as [|m ms IH]; [done|]. simpl.
  rewrite frame_of_metric_table.
  destruct (table_of_metric w m); simpl; [f_equal|]; exact IH.
Qed.

Lemma table_of_metric_name (w : world) (m : string * (string * extras))
    (nt : named_table) :
  table_of_metric w m = Some nt → nt.1 = m.1.
Proof.
  unfold table_of_metric.
  destruct (fetch_metric_multistate w m.2.1 m.1 m.2.2) as [|[[|r df] written]];
    [done..|]. by intros [= <-].
Qed.

Lemma tables_names (w : world) (ms : list (string * (string * extras)))
    (nt : named_table) :
  nt ∈ omap (table_of_metric w) ms → nt.1 ∈ ms.*1.
Proof.
  intros (m & Hm & Hnt)%list_elem_of_omap.
  rewrite (table_of_metric_name w m nt Hnt). apply list_elem_of_fmap. by exists m.
Qed.

Lemma tables_names_NoDup (w : world) (ms : list (string * (string * extras))) :
  NoDup ms.*1 → NoDup (omap (table_of_metric w) ms).*1.
Proof.
  induction ms as [|m ms IH]; [done|]. rewrite fmap_cons, NoDup_cons.
  intros [Hm Hnd]. simpl.
  destruct (table_of_metric w m) as [nt|] eqn:E; [|by apply IH].
  rewrite fmap_cons. apply NoDup_cons. split; [|by apply IH].
  rewrite (table_of_metric_name w m nt E).
  intros (nt' & Heq & Hin)%list_elem_of_fmap. apply Hm. rewrite Heq.
  by apply (tables_names w).
Qed.

Lemma METRICS_NoDup : NoDup METRICS.*1.
Proof. by_evaluation. Qed.

Lemma tables_NoDup (w : world) : NoDup (tables w).*1.
Proof. unfold tables. apply tables_names_NoDup, METRICS_NoDup. Qed.

Lemma tables_in_catalog (w : world) (nt : named_table) :
  nt ∈ tables w → nt.1 ∈ METRICS.*1.
Proof. unfold tables. apply tables_names. Qed.

Lemma columns_foldl_merge (ts : list named_table) (acc : frame) :
  columns (foldl merge_outer acc (to_frame <$> ts)) = columns acc ++ ts.*1.
Proof.
  revert acc. induction ts as [|nt ts IH]; intros acc; simpl.
  - by rewrite app_nil_r.
  - rewrite IH. simpl. by rewrite <- app_assoc.
Qed.

Lemma columns_reduce_merge (ts : list named_table) (merged : frame) :
  reduce_merge (to_frame <$> ts) = Some merged → columns merged = ts.*1.
Proof.
  destruct ts as [|nt ts]; [done|]. intros [= <-]. apply columns_foldl_merge.
Qed.

(** The rollup leaves the keys and every other cell alone. *)
Lemma add_rollup_other_cells (f final : frame) :
  add_rollup f = Some final →
  Forall2 (λ r r' : row,
             r'.1 = r.1 ∧ ∀ c, c ≠ "grass_seed_acres" → r'.2 !! c = r.2 !! c)
          (rows f) (rows final).
Proof.
  unfold add_rollup. destruct (existing_grass_cols f) as [|c0 cols].
  - intros [= <-]. by apply Forall_Forall2_diag, Forall_forall.
  - intros (rs & Hrs & [= <-])%bind_Some. simpl.
    apply mapM_Some in Hrs. eapply Forall2_impl; [exact Hrs|].
    intros r r'. unfold rollup_row.
    intros (c & _ & [= <-])%bind_Some. simpl. split; [done|].
    intros c' Hc'. by apply lookup_insert_ne.
Qed.

(** What a run of [main] that writes the output went through. *)
Lemma main_output_inv (w : world) (final : frame) :
  OutputWrite final ∈ (main w).1 →
  ∃ merged, reduce_merge (to_frame <$> tables w) = Some merged
            ∧ add_rollup (clean_frame merged) = Some final.
Proof.
  intros Hout.
  assert ((fetch_all w).1 = to_frame <$> tables w) as Hframes
    by (unfold tables; rewrite <- frames_of_tables; apply fetch_all_spec).
  assert (∀ f, OutputWrite f ∉ (fetch_all w).2) as Hno.
  { intros f Hf. by apply (proj1 (Forall_forall _ _) (proj2 (fetch_all_spec w))) in Hf. }
  remember (tables w) as ts eqn:Ets. clear Ets.
  unfold main in Hout. destruct (fetch_all w) as [frames effs].
  cbn [fst snd] in Hframes, Hno. subst frames.
  destruct ts as [|nt ts]; [by apply Hno in Hout|].
  destruct (reduce_merge (to_frame <$> nt :: ts)) as [merged|];
    [|by apply Hno in Hout].
  destruct (add_rollup (clean_frame merged)) as [final'|] eqn:Eroll;
    [|by apply Hno in Hout].
  destruct (output_writable w); [|by apply Hno in Hout].
  cbn [fst] in Hout.
  apply elem_of_app in Hout as [Hin|Hin%list_elem_of_singleton];
    [by apply Hno in Hin|].
  injection Hin as ->. by exists merged.
Qed.

End RunFacts.

Module RunTheorems.
Import Numeric Frame Pipeline Samples FrameFacts CleanerFacts RollupFacts FetchFacts
  RunFacts.

(** X11: In the file [main] writes, every cell of a metric's column is the
    cleaned form of a raw cell that the metric's fetched table has for the
    row's key, or of NaN when the table has no row for that key: no cell is
    an estimate put together from other rows. *)
Theorem main_output_unreconciled (w : world) (final : frame) :
  OutputWrite final ∈ (main w).1 →
  ∀ x nt, x ∈ rows final → nt ∈ tables w →
    ∃ v, selects nt.2 x.1 v ∧ x.2 !! nt.1 = Some (clean_cell v).
Proof.
  intros Hout x nt Hx Hnt.
  destruct (main_output_inv w final Hout) as (merged & Hmerged & Hroll).
  pose proof (tables_NoDup w) as Hnd.
  pose proof (tables_in_catalog w nt Hnt) as Hname.
  apply list_elem_of_lookup in Hx as [i Hi].
  destruct (Forall2_lookup_r _ _ _ _ _ (add_rollup_other_cells _ _ Hroll) Hi)
    as (r & Hr & Hk & Hcells).
  assert (r ∈ rows (clean_frame merged)) as Hrin
    by (apply list_elem_of_lookup; by exists i).
  rewrite rows_clean_frame in Hrin.
  apply list_elem_of_fmap in Hrin as (r0 & -> & Hr0).
  apply (reduce_merge_rows _ _ Hnd Hmerged) in Hr0 as (_ & _ & Hsel).
  destruct (Hsel nt Hnt) as (v & Hv & Hs).
  exists v. split; [by rewrite Hk|].
  rewrite Hcells.
  - rewrite lookup_clean_row, decide_True; [by rewrite Hv|].
    apply elem_of_cols_to_clean. split; [done|].
    rewrite (columns_reduce_merge _ _ Hmerged). apply list_elem_of_fmap. by exists nt.
  - intros Heq. apply grass_seed_acres_fresh. by rewrite <- Heq.
Qed.

Lemma main_output_unreconciled_witness :
  ∃ final, OutputWrite final ∈ (main beef_world).1
    ∧ ∀ x nt, x ∈ rows final → nt ∈ tables beef_world →
        ∃ v, selects nt.2 x.1 v ∧ x.2 !! nt.1 = Some (clean_cell v).
Proof.
  eexists. split; [|apply (main_output_unreconciled beef_world)];
    apply elem_of_cons; right; apply elem_of_cons; by left.
Defined.

End RunTheorems.

(** ** The delays of [fetch_with_retry] *)

Module RetryTraceFacts.
Import Pipeline RetryFacts.

Lemma retry_trace_result (get : nat → attempt) (a n : nat) :
  (retry_trace get a n).1 = retry_from get a n.
Proof.
  revert a. induction n as [|n IH]; intros a; simpl; [done|].
  specialize (IH (S a)).
  destruct (get a); [done|..];
    by destruct (retry_trace get (S a) n) as [result sleeps].
Qed.

Lemma attempt_sleeps_bound (outcome : attempt) (remaining' : nat) :
  sum_list (attempt_sleeps outcome remaining')
  ≤ RETRY_DELAY * 2 + (if remaining' is O then 0 else RETRY_DELAY).
Proof.
  unfold attempt_sleeps.
  rewrite sum_list_with_app. unfold RETRY_DELAY.
  destruct outcome, remaining'; simpl; lia.
Qed.

Lemma retry_trace_sleeps_bound (get : nat → attempt) (a n : nat) :
  sum_list (retry_trace get a n).2 ≤ RETRY_DELAY * (3 * n - 1).
Proof.
  revert a. induction n as [|n IH]; intros a; [simpl; lia|].
  cbn [retry_trace]. specialize (IH (S a)).
  pose proof (attempt_sleeps_bound (get a) n) as Hb.
  destruct (retry_trace get (S a) n) as [result sleeps]. cbn [snd] in IH.
  assert (sum_list (attempt_sleeps (get a) n ++ sleeps)
          ≤ RETRY_DELAY * (3 * S n - 1)) as Hsum.
  { rewrite sum_list_with_app. unfold RETRY_DELAY in *. destruct n; lia. }
  destruct (get a); cbn [snd]; [simpl; lia|done..].
Qed.

Lemma retry_from_agree (get get' : nat → attempt) (a n : nat) :
  (∀ i, i < n → get (a + i) = get' (a + i)) →
  retry_from get a n = retry_from get' a n.
Proof.
  revert a. induction n as [|n IH]; intros a Hagree; simpl; [done|].
  assert (get' a = get a) as ->.
  { specialize (Hagree 0). rewrite Nat.add_0_r in Hagree. symmetry. apply Hagree. lia. }
  assert (retry_from get (S a) n = retry_from get' (S a) n) as Hrest.
  { apply IH. intros i Hi. rewrite Nat.add_succ_comm. apply Hagree. lia. }
  by destruct (get a).
Qed.

End RetryTraceFacts.

Module RetryTraceTheorems.
Import Pipeline Samples RetryFacts RetryTraceFacts.

(** X2: [fetch_with_retry] looks at no attempt beyond the first [max_retries]:
    two endpoints that answer those alike give the same result. *)
Theorem fetch_with_retry_bounded (get get' : nat → attempt) (max_retries : nat) :
  (∀ i, i < max_retries → get i = get' i) →
  fetch_with_retry get max_retries = fetch_with_retry get' max_retries.
Proof. intros H. apply (retry_from_agree get get' 0). exact H. Qed.

Lemma fetch_with_retry_bounded_witness :
  fetch_with_retry (λ n, if n <? 3 then Status429 else Status200 Failed) 3
  = fetch_with_retry (λ _, Status429) 3.
Proof.
  apply fetch_with_retry_bounded. intros i Hi.
  destruct i as [|[|[|i]]]; [done..|lia].
Defined.

(** X3: The calls of [time.sleep] in [fetch_with_retry] add up to at most
    [RETRY_DELAY * (3 * max_retries - 1)] seconds, there is none when the
    first attempt is answered with status 200, and the traced loop returns
    what [fetch_with_retry] returns. *)
Theorem fetch_with_retry_sleeps (get : nat → attempt) (max_retries : nat) :
  (fetch_with_retry_trace get max_retries).1 = fetch_with_retry get max_retries
  ∧ sum_list (fetch_with_retry_trace get max_retries).2
    ≤ RETRY_DELAY * (3 * max_retries - 1)
  ∧ (∀ d, get 0 = Status200 d →
            (fetch_with_retry_trace get max_retries).2 = []).
Proof.
  unfold fetch_with_retry_trace, fetch_with_retry.
  split; [apply retry_trace_result|]. split; [apply retry_trace_sleeps_bound|].
  intros d Hd. destruct max_retries; simpl; [done|]. by rewrite Hd.
Qed.

Example rate_limited_sleeps :
  fetch_with_retry_trace (λ _, Status429) MAX_RETRIES = (None, [10; 5; 10; 5; 10]).
Proof. reflexivity. Qed.

Example timeout_then_answer_sleeps :
  fetch_with_retry_trace (λ n, if n is O then RaisedTimeout else Status200 (Data []))
    MAX_RETRIES = (Some (Data []), [5]).
Proof. reflexivity. Qed.

End RetryTraceTheorems.

(** ** The cache of [fetch_metric_multistate] *)

Module FetchMoreFacts.
Import Numeric Frame Pipeline FetchFacts.

Lemma fetch_state_inv (w : world) (desc : string) (ex : extras)
    (acc : list table) (st : string) :
  match api w (Query desc st ex) with
  | Malformed => fetch_state w desc ex acc st = inl ()
  | Data (r :: recs) =>
      fetch_state w desc ex acc st = inr (acc ++ [select_columns <$> r :: recs])
  | _ => fetch_state w desc ex acc st = inr acc
  end.
Proof. unfold fetch_state. by destruct (api w (Query desc st ex)) as [| |[|r recs]]. Qed.

Lemma fetch_states_raise_iff (w : world) (desc : string) (ex : extras)
    (states : list string) (acc : list table) :
  fetch_states w desc ex acc states = inl () ↔
    ∃ st, st ∈ states ∧ api w (Query desc st ex) = Malformed.
Proof.
  revert acc. induction states as [|st states IH]; intros acc; cbn [fetch_states].
  - split; [done|]. intros (st & Hst & _). by apply elem_of_nil in Hst.
  - pose proof (fetch_state_inv w desc ex acc st) as Hst.
    setoid_rewrite elem_of_cons.
    destruct (api w (Query desc st ex)) as [| |[|r recs]] eqn:E; rewrite Hst.
    + rewrite IH. split; [naive_solver|].
      intros (st' & [->|Hin] & Hm); [congruence|by exists st'].
    + split; [|done]. intros _. exists st. by split; [left|].
    + rewrite IH. split; [naive_solver|].
      intros (st' & [->|Hin] & Hm); [congruence|by exists st'].
    + rewrite IH. split; [naive_solver|].
      intros (st' & [->|Hin] & Hm); [congruence|by exists st'].
Qed.

(** Every table the loop over the states collects has a row, and all its
    cells are strings. *)
Lemma fetch_states_tables (w : world) (desc : string) (ex : extras)
    (states : list string) (acc acc' : list table) :
  Forall (λ t : table, t ≠ [] ∧ Forall (λ kv, str_cell kv.2) t) acc →
  fetch_states w desc ex acc states = inr acc' →
  Forall (λ t : table, t ≠ [] ∧ Forall (λ kv, str_cell kv.2) t) acc'.
Proof.
  revert acc. induction states as [|st states IH]; intros acc Hacc;
    cbn [fetch_states].
  - by intros [= <-].
  - pose proof (fetch_state_inv w desc ex acc st) as Hst.
    destruct (api w (Query desc st ex)) as [| |[|r recs]] eqn:E; rewrite Hst;
      [by apply IH|done|by apply IH|].
    apply IH. apply Forall_app. split; [done|].
    apply Forall_singleton. split; [done|].
    apply Forall_fmap, Forall_forall. by intros r' _.
Qed.

Lemma concat_nonempty {A} (ts : list (list A)) :
  ts ≠ [] → Forall (λ t, t ≠ []) ts → concat ts ≠ [].
Proof.
  destruct ts as [|t ts]; [done|]. intros _ [Ht _]%Forall_cons.
  simpl. by destruct t.
Qed.

(** The ways a call of [fetch_metric_multistate] can end. *)
Lemma fetch_metric_cases (w : world) (desc name : string) (ex : extras) :
  match fetch_metric_multistate w desc name ex with
  | inl _ =>
      cache w !! name = None
      ∧ ∃ st, st ∈ TARGET_STATES ∧ api w (Query desc st ex) = Malformed
  | inr (t, None) =>
      cache w !! name = Some t ∨ (cache w !! name = None ∧ t = [])
  | inr (t, Some (n, t')) =>
      cache w !! name = None ∧ n = name ∧ t' = t ∧ t ≠ []
      ∧ Forall (λ kv, str_cell kv.2) t
  end.
Proof.
  unfold fetch_metric_multistate.
  destruct (cache w !! name) as [t|] eqn:Ec; [by left|].
  destruct (fetch_states w desc ex [] TARGET_STATES) as [[]|acc'] eqn:Ef.
  - split; [done|]. by apply (fetch_states_raise_iff w desc ex TARGET_STATES []).
  - pose proof (fetch_states_tables w desc ex TARGET_STATES [] acc'
                  (Forall_nil_2 _) Ef) as Hacc.
    destruct acc' as [|t0 acc']; [by right|].
    split; [done|]. split; [done|]. split; [done|]. split.
    + apply concat_nonempty; [done|].
      eapply Forall_impl; [exact Hacc|]. by intros t [? _].
    + apply Forall_concat. eapply Forall_impl; [exact Hacc|]. by intros t [_ ?].
Qed.

End FetchMoreFacts.

Module FetchMoreTheorems.
Import Numeric Frame Pipeline Samples FetchFacts FetchMoreFacts.

(** X4: [fetch_metric_multistate] writes a cache file only on a cache miss
    with data: the file is named after the metric and holds the very table
    that is returned, which then is not empty; with a cache file present
    the cached table is returned; and an empty result is never cached. *)
Theorem cache_written_only_with_data (w : world) (desc name : string) (ex : extras)
    (t : table) (written : option (string * table)) :
  fetch_metric_multistate w desc name ex = inr (t, written) →
  match written with
  | Some (n, t') => cache w !! name = None ∧ n = name ∧ t' = t ∧ t ≠ []
  | None => cache w !! name = Some t ∨ (cache w !! name = None ∧ t = [])
  end.
Proof.
  intros H. pose proof (fetch_metric_cases w desc name ex) as Hc.
  rewrite H in Hc. destruct written as [[n t']|]; [|done].
  by destruct Hc as (? & ? & ? & ? & _).
Qed.

Lemma cache_written_only_with_data_witness :
  cache beef_world !! "beef_cattle_head" = None
  ∧ "beef_cattle_head" = "beef_cattle_head"
  ∧ select_columns <$> lane_beef = select_columns <$> lane_beef
  ∧ select_columns <$> lane_beef ≠ [].
Proof.
  apply (cache_written_only_with_data beef_world "CATTLE, COWS, BEEF - INVENTORY"
           "beef_cattle_head" None (select_columns <$> lane_beef)
           (Some ("beef_cattle_head", select_columns <$> lane_beef))).
  reflexivity.
Defined.


End FetchMoreTheorems.

(** ** The statistics of the fetch loop *)

Module LoopFacts.
Import Numeric Frame Pipeline Samples FetchFacts FetchMoreFacts RunFacts.

Lemma fetch_step_effects (w : world) (frames : list frame) (effs : list effect)
    (m : string * (string * extras)) :
  fetch_step w (frames, effs) m
    = (frames ++ option_list (frame_of_metric w m), effs ++ written_by w m).
Proof.
  destruct m as [col [desc ex]]. unfold fetch_step, frame_of_metric, written_by.
  cbn [fst snd].
  destruct (fetch_metric_multistate w desc col ex) as [e|[[|r df] [[n t]|]]];
    by rewrite ?app_nil_r.
Qed.

Lemma foldl_fetch_step_effects (w : world) (ms : list (string * (string * extras)))
    (frames : list frame) (effs : list effect) :
  foldl (fetch_step w) (frames, effs) ms
    = (frames ++ omap (frame_of_metric w) ms, effs ++ (ms ≫= written_by w)).
Proof.
  revert frames effs. induction ms as [|m ms IH]; intros frames effs.
  - by rewrite !app_nil_r.
  - cbn [foldl]. rewrite fetch_step_effects, IH, bind_cons, <- !app_assoc.
    do 2 f_equal. simpl. by destruct (frame_of_metric w m).
Qed.

Lemma fetch_all_effects (w : world) :
  fetch_all w = (to_frame <$> tables w, METRICS ≫= written_by w).
Proof.
  unfold fetch_all, tables. rewrite foldl_fetch_step_effects.
  by rewrite frames_of_tables.
Qed.

(** One pass of the loop body: what it appends to each of the three
    lists. *)
Lemma loop_step_spec (w : world) (frames : list frame) (stats : list fetch_stat)
    (effs : list effect) (m : string * (string * extras)) :
  ∃ s, loop_step w (frames, stats, effs) m
         = (frames ++ option_list (frame_of_metric w m), stats ++ [s],
            effs ++ written_by w m)
       ∧ stat_metric s = m.1
       ∧ stat_total_rows s = match frame_of_metric w m with
                             | Some f => length (rows f)
                             | None => 0
                             end
       ∧ (0 < stat_total_rows s ↔ is_Some (frame_of_metric w m)).
Proof.
  destruct m as [col [desc ex]]. unfold loop_step, frame_of_metric, written_by.
  cbn [fst snd].
  destruct (fetch_metric_multistate w desc col ex) as [e|[[|r df] written]].
  - exists (ErrorStat col). rewrite !app_nil_r.
    split; [done|]. split; [done|]. split; [done|]. simpl. split; [lia|].
    by intros [? ?].
  - exists (NoDataStat col). rewrite app_nil_r.
    split; [by destruct written as [[n t]|]|]. split; [done|]. split; [done|].
    simpl. split; [lia|]. by intros [? ?].
  - exists (validate_data (rename_value col (r :: df)) col).
    split; [by destruct written as [[n t]|]|]. split; [done|].
    split; [simpl; by rewrite length_fmap|]. split; [by eexists|].
    intros _. simpl. lia.
Qed.

Lemma successful_app (a b : list fetch_stat) :
  successful (a ++ b) = successful a ++ successful b.
Proof. apply filter_app. Qed.

Lemma failed_app (a b : list fetch_stat) : failed (a ++ b) = failed a ++ failed b.
Proof. apply filter_app. Qed.

Lemma summary_singleton (s : fetch_stat) :
  length (successful [s]) = (if decide (0 < stat_total_rows s) then 1 else 0)
  ∧ length (successful [s]) + length (failed [s]) = 1.
Proof.
  unfold successful, failed. rewrite !filter_cons, !filter_nil.
  destruct (decide (0 < stat_total_rows s)), (decide (stat_total_rows s = 0));
    simpl; split; try done; lia.
Qed.

Lemma foldl_loop_step (w : world) (ms : list (string * (string * extras)))
    (frames : list frame) (stats : list fetch_stat) (effs : list effect) :
  ∃ stats', foldl (loop_step w) (frames, stats, effs) ms
              = (frames ++ omap (frame_of_metric w) ms, stats ++ stats',
                 effs ++ (ms ≫= written_by w))
            ∧ stat_metric <$> stats' = ms.*1
            ∧ length (successful stats') = length (omap (frame_of_metric w) ms)
            ∧ length (successful stats') + length (failed stats') = length ms.
Proof.
  revert frames stats effs. induction ms as [|m ms IH]; intros frames stats effs.
  - exists []. by rewrite !app_nil_r.
  - cbn [foldl].
    destruct (loop_step_spec w frames stats effs m) as (s & -> & Hm & _ & Hpos).
    destruct (IH (frames ++ option_list (frame_of_metric w m)) (stats ++ [s])
                 (effs ++ written_by w m)) as (stats' & -> & Hn & Hs & Hf).
    exists (s :: stats'). split; [|split; [|split]].
    + rewrite bind_cons, <- !app_assoc. do 3 f_equal.
      simpl. by destruct (frame_of_metric w m).
    + rewrite !fmap_cons. by f_equal.
    + change (s :: stats') with ([s] ++ stats').
      rewrite successful_app, length_app, Hs.
      destruct (summary_singleton s) as [-> _]. simpl.
      destruct (frame_of_metric w m) as [f|].
      * rewrite decide_True by (apply Hpos; by eexists). reflexivity.
      * rewrite decide_False; [reflexivity|]. intros [? ?]%Hpos. done.
    + change (s :: stats') with ([s] ++ stats').
      rewrite successful_app, failed_app, !length_app.
      destruct (summary_singleton s) as [_ H1]. simpl length at 5. lia.
Qed.

End LoopFacts.

Module LoopTheorems.
Import Numeric Frame Pipeline Samples FetchFacts FetchMoreFacts RunFacts LoopFacts.

(** X8: The summary report of [main] accounts for every metric of the catalog
    once and in catalog order; the metrics it counts as successfully
    fetched are as many as the frames that go into the merge, and every
    other metric is counted as failed. *)
Theorem summary_counts (w : world) :
  (main_loop w).1.1 = (fetch_all w).1
  ∧ (main_loop w).2 = (fetch_all w).2
  ∧ stat_metric <$> (main_loop w).1.2 = METRICS.*1
  ∧ length (successful (main_loop w).1.2) = length (fetch_all w).1
  ∧ length (successful (main_loop w).1.2) + length (failed (main_loop w).1.2)
      = length METRICS.
Proof.
  unfold main_loop, fetch_all. rewrite foldl_fetch_step_effects.
  destruct (foldl_loop_step w METRICS [] [] []) as (stats & -> & Hn & Hs & Hf).
  cbn [fst snd]. rewrite !app_nil_l. done.
Qed.

End LoopTheorems.

(** ** Null counts: [validate_data] and the cleaning loop *)

Module CountFacts.
Import Numeric Frame Pipeline Samples FrameFacts CleanerFacts.

Lemma null_count_cons (col : string) (r : row) (rs : list row) :
  null_count col (r :: rs) =
    (if isna (default CNaN (r.2 !! col)) then 1 else 0) + null_count col rs.
Proof.
  unfold null_count. rewrite filter_cons.
  by destruct (isna (default CNaN (r.2 !! col))).
Qed.


Lemma unparsed_count_cons (col : string) (r : row) (rs : list row) :
  unparsed_count col (r :: rs) =
    (if isna (default CNaN (r.2 !! col)) then 0
     else match clean_value (default CNaN (r.2 !! col)) with
          | Some _ => 0
          | None => 1
          end)
    + unparsed_count col rs.
Proof.
  unfold unparsed_count. rewrite filter_cons.
  destruct (isna (default CNaN (r.2 !! col))),
    (clean_value (default CNaN (r.2 !! col)));
    case_decide as H; try done; destruct H; done.
Qed.

(** The counts of a column depend on the cells of that column only. *)
Lemma counts_ext (col : string) (g : row → row) (rs : list row) :
  (∀ r, (g r).2 !! col = r.2 !! col) →
  null_count col (g <$> rs) = null_count col rs
  ∧ unparsed_count col (g <$> rs) = unparsed_count col rs.
Proof.
  intros Hg. induction rs as [|r rs [IH1 IH2]]; [done|].
  by rewrite fmap_cons, !null_count_cons, !unparsed_count_cons, Hg, IH1, IH2.
Qed.

(** The cells that turn NaN when a column is cleaned are those that held
    something that does not parse. *)
Lemma null_count_cleaned (col : string) (g : row → row) (rs : list row) :
  (∀ r, (g r).2 !! col = clean_cell <$> r.2 !! col) →
  null_count col (g <$> rs) = null_count col rs + unparsed_count col rs.
Proof.
  intros Hg. induction rs as [|r rs IH]; [done|].
  rewrite fmap_cons, !null_count_cons, unparsed_count_cons, Hg, IH.
  destruct (r.2 !! col) as [c|]; [|simpl; lia].
  change (default CNaN (clean_cell <$> Some c)) with (clean_cell c).
  change (default CNaN (Some c)) with c.
  unfold clean_cell. pose proof clean_value_nan as Hnan.
  destruct c as [|s|z|d]; [rewrite Hnan; simpl; lia|..]; clear Hnan;
    cbn [isna];
    match goal with |- context [clean_value ?c] => destruct (clean_value c) end;
    simpl; lia.
Qed.

Lemma cols_to_clean_NoDup (merged : frame) : NoDup (cols_to_clean merged).
Proof. unfold cols_to_clean. apply NoDup_filter, RunFacts.METRICS_NoDup. Qed.



End CountFacts.

Module CountTheorems.
Import Numeric Frame Pipeline Samples FrameFacts CleanerFacts FetchMoreFacts CountFacts.

(** X10: When the cleaning loop of [main] reaches a column, the number it
    logs as withheld is the number of cells of that column of the merged
    table that hold something which does not parse as a number; those
    cells, and no others, are the new NaN cells of the cleaned column. *)
Theorem withheld_counts_unparsed (merged : frame) (pre post : list string)
    (col : string) :
  cols_to_clean merged = pre ++ col :: post →
  withheld col (foldl clean_column merged pre) = unparsed_count col (rows merged)
  ∧ null_count col (rows (clean_frame merged))
      = null_count col (rows merged) + unparsed_count col (rows merged).
Proof.
  intros Hsplit.
  pose proof (cols_to_clean_NoDup merged) as Hnd. rewrite Hsplit in Hnd.
  apply NoDup_app in Hnd as (_ & Hpre & _).
  assert (col ∉ pre) as Hcol.
  { intros Hin. apply (Hpre col Hin), elem_of_cons. by left. }
  split.
  - unfold withheld.
    destruct (foldl_clean_column pre merged) as [_ Hrows].
    unfold clean_column at 1. cbn [rows].
    rewrite (null_count_cleaned col
               (λ r : row, (r.1, alter clean_cell col r.2)))
      by (intros r; cbn [snd]; by rewrite lookup_alter_eq).
    rewrite Hrows.
    destruct (counts_ext col (clean_row pre) (rows merged)) as [-> ->]; [|lia].
    intros r. by rewrite lookup_clean_row, decide_False.
  - rewrite rows_clean_frame. apply null_count_cleaned. intros r.
    rewrite lookup_clean_row, decide_True; [done|].
    rewrite Hsplit. apply elem_of_app. right. apply elem_of_cons. by left.
Qed.

Lemma withheld_counts_unparsed_witness :
  withheld "wheat_acres" (foldl clean_column raw_frame ["farms"])
    = unparsed_count "wheat_acres" (rows raw_frame)
  ∧ null_count "wheat_acres" (rows (clean_frame raw_frame))
      = null_count "wheat_acres" (rows raw_frame)
        + unparsed_count "wheat_acres" (rows raw_frame).
Proof.
  apply (withheld_counts_unparsed raw_frame ["farms"] [] "wheat_acres").
  reflexivity.
Defined.



End CountTheorems.

Module ValidateFacts.
Import Numeric Frame Pipeline Samples CountFacts.




End ValidateFacts.

Module ValidateTheorems.
Import Numeric Frame Pipeline Samples CountFacts ValidateFacts.


End ValidateTheorems.

(** ** The merged table and the written file *)

Module MultiplicityFacts.
Import Numeric Frame Pipeline Samples FrameFacts.

Lemma count_key_to_frame_eq (nt : named_table) (k : key) :
  count_key k (rows (to_frame nt)) = table_count k nt.2.
Proof.
  destruct nt as [c t]. unfold to_frame, rename_value, table_count, table.
  cbn [fst snd rows].
  induction t as [|[k' v] t IH]; [done|].
  rewrite fmap_cons, count_key_cons, filter_cons, IH. cbn [fst].
  by destruct (decide (k' = k)).
Qed.

Lemma count_key_foldl (k : key) (ts : list named_table) (acc : frame) :
  count_key k (rows (foldl merge_outer acc (to_frame <$> ts))) =
    if (count_key k (rows acc) =? 0)
       && forallb (λ nt : named_table, table_count k nt.2 =? 0) ts
    then 0
    else Nat.max 1 (count_key k (rows acc))
         * foldr (λ nt n, Nat.max 1 (table_count k nt.2) * n) 1 ts.
Proof.
  revert acc. induction ts as [|nt ts IH]; intros acc.
  - cbn [fmap list_fmap foldl forallb foldr]. rewrite andb_true_r.
    destruct (Nat.eqb_spec (count_key k (rows acc)) 0); lia.
  - rewrite fmap_cons. cbn [foldl forallb foldr].
    rewrite IH, count_key_merge_outer, count_key_to_frame_eq.
    set (a := count_key k (rows acc)). set (b := table_count k nt.2).
    set (p := foldr (λ nt n, Nat.max 1 (table_count k nt.2) * n) 1 ts).
    set (z := forallb (λ nt : named_table, table_count k nt.2 =? 0) ts).
    destruct (decide (a = 0)) as [Ha|Ha].
    + rewrite Ha. cbn [Nat.mul Nat.eqb andb Nat.add].
      destruct (Nat.eqb_spec b 0) as [->|Hb]; cbn [andb]; destruct z; lia.
    + destruct (Nat.eqb_spec a 0) as [|_]; [done|].
      destruct (Nat.eqb_spec (a * Nat.max 1 b + 0) 0) as [|_]; [nia|].
      cbn [andb]. nia.
Qed.

End MultiplicityFacts.

Module MultiplicityTheorems.
Import Numeric Frame Pipeline Samples FrameFacts MultiplicityFacts.

(** X9: How many rows of the merged table carry a key: none when no table
    has the key, and otherwise the product of the numbers of rows the
    tables have for it, where a table without the key counts once. A key
    that two tables both report twice thus comes out four times. *)
Theorem merged_key_multiplicity (ts : list named_table) (merged : frame) (k : key) :
  reduce_merge (to_frame <$> ts) = Some merged →
  count_key k (rows merged) = merged_count k ts.
Proof.
  destruct ts as [|nt ts]; [done|]. rewrite fmap_cons. intros [= <-].
  rewrite count_key_foldl, count_key_to_frame_eq. unfold merged_count.
  cbn [forallb foldr].
  destruct (table_count k nt.2 =? 0),
    (forallb (λ nt0 : named_table, table_count k nt0.2 =? 0) ts); cbn [andb]; lia.
Qed.

Lemma merged_key_multiplicity_witness :
  count_key lane
    (rows (foldl merge_outer (to_frame farms_twice)
             [to_frame wheat_table; to_frame ("hay_acres", farms_twice.2)]))
  = merged_count lane [farms_twice; wheat_table; ("hay_acres", farms_twice.2)].
Proof.
  apply (merged_key_multiplicity
           [farms_twice; wheat_table; ("hay_acres", farms_twice.2)]).
  reflexivity.
Defined.

Example repeated_key_multiplies :
  merged_count lane [farms_twice; wheat_table; ("hay_acres", farms_twice.2)] = 4.
Proof. reflexivity. Qed.

End MultiplicityTheorems.

Module RunMoreFacts.
Import Numeric Frame Pipeline Samples FrameFacts CleanerFacts RollupFacts FetchFacts
  FetchMoreFacts RunFacts LoopFacts.

(** Summing the cleaned grass-seed columns never meets a string. *)
Lemma add_rollup_clean_total (merged : frame) :
  is_Some (add_rollup (clean_frame merged)).
Proof.
  unfold add_rollup.
  destruct (existing_grass_cols (clean_frame merged)) as [|c0 cols] eqn:Ecols;
    [by eexists|].
  assert (is_Some (mapM (rollup_row (c0 :: cols)) (rows (clean_frame merged))))
    as [rs Hrs]; [|rewrite Hrs; by eexists].
  apply mapM_is_Some, Forall_forall. intros r Hr.
  pose proof (cleaned_grass_cells_numeric merged r Hr) as Hnum.
  rewrite Ecols in Hnum. unfold compose, rollup_row.
  rewrite (rollup_cell_numeric _ Hnum). by eexists.
Qed.

(** The rollup leaves the rows in place, and adds its column last when a
    grass-seed column exists. *)
Lemma add_rollup_shape (f final : frame) :
  "grass_seed_acres" ∉ columns f →
  add_rollup f = Some final →
  keys_of (rows final) = keys_of (rows f)
  ∧ columns final = match existing_grass_cols f with
                    | [] => columns f
                    | _ => columns f ++ ["grass_seed_acres"]
                    end.
Proof.
  intros Hfresh Hroll. pose proof (add_rollup_other_cells f final Hroll) as Hrows.
  split.
  - unfold keys_of. symmetry. apply list_eq_Forall2, Forall2_fmap.
    eapply Forall2_impl; [exact Hrows|]. by intros r r' [-> _].
  - unfold add_rollup in Hroll.
    destruct (existing_grass_cols f) as [|c0 cols]; [by injection Hroll as <-|].
    apply bind_Some in Hroll as (rs & _ & [= <-]). cbn [columns].
    unfold assign_column. by rewrite bool_decide_false.
Qed.

(** The two ways a run of [main] can go. *)
Lemma main_spec (w : world) :
  (tables w = [] ∧ main w = (METRICS ≫= written_by w, Returned))
  ∨ ∃ merged final,
      tables w ≠ []
      ∧ reduce_merge (to_frame <$> tables w) = Some merged
      ∧ add_rollup (clean_frame merged) = Some final
      ∧ main w = if output_writable w
                 then ((METRICS ≫= written_by w) ++ [OutputWrite final], Returned)
                 else (METRICS ≫= written_by w, Raised).
Proof.
  unfold main. rewrite fetch_all_effects.
  remember (tables w) as ts eqn:Ets. clear Ets.
  remember (METRICS ≫= written_by w) as effs eqn:Eeffs. clear Eeffs.
  destruct ts as [|nt ts]; [by left|]. right.
  destruct (reduce_merge (to_frame <$> nt :: ts)) as [merged|] eqn:Em; [|done].
  destruct (add_rollup_clean_total merged) as [final Hfinal].
  exists merged, final. rewrite fmap_cons, Hfinal. done.
Qed.

Lemma columns_merged_fresh (w : world) (merged : frame) :
  reduce_merge (to_frame <$> tables w) = Some merged →
  "grass_seed_acres" ∉ columns (clean_frame merged).
Proof.
  intros Hm. rewrite columns_clean_frame, (columns_reduce_merge _ _ Hm).
  intros (nt & Heq & Hnt)%list_elem_of_fmap.
  apply grass_seed_acres_fresh. rewrite Heq. by apply (tables_in_catalog w).
Qed.

Lemma elem_of_written_by (w : world) (m : string * (string * extras))
    (e : effect) :
  e ∈ written_by w m →
  ∃ t, e = CacheWrite m.1 t ∧ cache w !! m.1 = None ∧ t ≠ []
       ∧ table_of_metric w m = Some (m.1, t).
Proof.
  unfold written_by, table_of_metric.
  pose proof (fetch_metric_cases w m.2.1 m.1 m.2.2) as Hc.
  destruct (fetch_metric_multistate w m.2.1 m.1 m.2.2) as [e'|[t [[n t']|]]];
    [by intros ?%elem_of_nil| |by intros ?%elem_of_nil].
  destruct Hc as (Hmiss & -> & -> & Hne & _).
  intros ->%list_elem_of_singleton. exists t. by destruct t.
Qed.

Lemma written_by_cached (w : world) (m : string * (string * extras)) :
  is_Some (cache w !! m.1) → written_by w m = [].
Proof.
  intros [t Ht]. unfold written_by, fetch_metric_multistate. by rewrite Ht.
Qed.

Lemma fetch_step_cached (w w' : world) (st : list frame * list effect)
    (m : string * (string * extras)) :
  cache w' = cache w → is_Some (cache w !! m.1) →
  fetch_step w' st m = fetch_step w st m.
Proof.
  intros Hc [t Ht]. destruct st as [frames effs], m as [col [desc ex]].
  unfold fetch_step, fetch_metric_multistate. rewrite Hc.
  cbn [fst] in Ht. by rewrite Ht.
Qed.

Lemma foldl_fetch_step_cached (w w' : world)
    (ms : list (string * (string * extras))) (st : list frame * list effect) :
  cache w' = cache w →
  Forall (λ m : string * (string * extras), is_Some (cache w !! m.1)) ms →
  foldl (fetch_step w') st ms = foldl (fetch_step w) st ms.
Proof.
  intros Hc Hms. revert st.
  induction Hms as [|m ms Hm _ IH]; intros st; [done|].
  cbn [foldl]. by rewrite (fetch_step_cached w w' st m Hc Hm), IH.
Qed.

End RunMoreFacts.

Module RunMoreTheorems.
Import Numeric Frame Pipeline Samples FrameFacts CleanerFacts RollupFacts FetchFacts
  FetchMoreFacts RunFacts LoopFacts RunMoreFacts.


(** X12: The header of the file [main] writes: after the three key columns,
    one column for every metric that has data, in catalog order, and then
    [grass_seed_acres] when one of the grass-seed metrics has data. *)
Theorem main_output_columns (w : world) (final : frame) :
  OutputWrite final ∈ (main w).1 →
  columns final = output_columns (tables w).*1.
Proof.
  intros Hout.
  destruct (main_output_inv w final Hout) as (merged & Hm & Hroll).
  pose proof (columns_merged_fresh w merged Hm) as Hfresh.
  destruct (add_rollup_shape _ _ Hfresh Hroll) as [_ ->].
  unfold existing_grass_cols, output_columns.
  by rewrite columns_clean_frame, (columns_reduce_merge _ _ Hm).
Qed.

Lemma main_output_columns_witness :
  ∃ final, OutputWrite final ∈ (main beef_world).1
    ∧ columns final = output_columns (tables beef_world).*1.
Proof.
  eexists. split; [|apply (main_output_columns beef_world)];
    apply elem_of_cons; right; apply elem_of_cons; by left.
Defined.

(** X13: The rows of the file [main] writes are those of the merge: cleaning
    and the rollup neither drop nor add a row, and a key has a row exactly
    when some fetched table has a row for it. *)
Theorem main_output_keys (w : world) (final : frame) :
  OutputWrite final ∈ (main w).1 →
  (∃ merged, reduce_merge (to_frame <$> tables w) = Some merged
             ∧ keys_of (rows final) = keys_of (rows merged))
  ∧ ∀ k, k ∈ keys_of (rows final) ↔ ∃ nt, nt ∈ tables w ∧ k ∈ table_keys nt.2.
Proof.
  intros Hout.
  destruct (main_output_inv w final Hout) as (merged & Hm & Hroll).
  pose proof (columns_merged_fresh w merged Hm) as Hfresh.
  destruct (add_rollup_shape _ _ Hfresh Hroll) as [Hkeys _].
  assert (keys_of (rows final) = keys_of (rows merged)) as Hk.
  { rewrite Hkeys, rows_clean_frame. unfold keys_of.
    rewrite <- list_fmap_compose. by apply list_fmap_ext. }
  split; [by exists merged|]. intros k. rewrite Hk.
  remember (tables w) as ts eqn:Ets. clear Ets Hout.
  destruct ts as [|nt ts]; [done|]. rewrite fmap_cons in Hm.
  injection Hm as <-. rewrite keys_of_foldl, keys_of_to_frame.
  setoid_rewrite elem_of_cons. split.
  - intros [Hk0|(g & (nt' & -> & Hnt')%list_elem_of_fmap & Hg)].
    + exists nt. by split; [left|].
    + exists nt'. split; [by right|]. by apply keys_of_to_frame.
  - intros (nt' & [->|Hin] & Hk0); [by left|]. right.
    exists (to_frame nt'). split; [|by apply keys_of_to_frame].
    apply list_elem_of_fmap. by exists nt'.
Qed.

Lemma main_output_keys_witness :
  ∃ final, OutputWrite final ∈ (main beef_world).1
    ∧ (∃ merged, reduce_merge (to_frame <$> tables beef_world) = Some merged
                 ∧ keys_of (rows final) = keys_of (rows merged))
    ∧ ∀ k, k ∈ keys_of (rows final) ↔
           ∃ nt, nt ∈ tables beef_world ∧ k ∈ table_keys nt.2.
Proof.
  eexists. split; [|apply (main_output_keys beef_world)];
    apply elem_of_cons; right; apply elem_of_cons; by left.
Defined.

(** X15: [main] writes a cache file only for a metric of the catalog that had
    no cache file, and what it writes is the non-empty table that goes
    into the merge under that name: no cache file is overwritten, and no
    empty result is cached. *)
Theorem cache_written_once_with_merged_table (w : world) (n : string) (t : table) :
  CacheWrite n t ∈ (main w).1 →
  cache w !! n = None ∧ t ≠ [] ∧ (n, t) ∈ tables w.
Proof.
  intros Hin.
  assert (CacheWrite n t ∈ METRICS ≫= written_by w) as Hw.
  { destruct (main_spec w) as [[_ Hmain]|(merged & final & _ & _ & _ & Hmain)];
      rewrite Hmain in Hin; [done|].
    destruct (output_writable w); [|done]. cbn [fst] in Hin.
    apply elem_of_app in Hin as [Hin|Hin%list_elem_of_singleton]; done. }
  apply list_elem_of_bind in Hw as (m & Hw & Hm).
  apply elem_of_written_by in Hw as (t' & [= -> ->] & Hmiss & Hne & Htab).
  split; [done|]. split; [done|]. unfold tables.
  apply list_elem_of_omap. by exists m.
Qed.

Lemma cache_written_once_with_merged_table_witness :
  cache beef_world !! "beef_cattle_head" = None
  ∧ select_columns <$> lane_beef ≠ []
  ∧ ("beef_cattle_head", select_columns <$> lane_beef) ∈ tables beef_world.
Proof.
  apply (cache_written_once_with_merged_table beef_world).
  apply elem_of_cons. by left.
Defined.

(** X16: With a cache file for every metric of the catalog, a run of [main]
    depends on the cache directory only: it gives the same result whatever
    the remote endpoint answers, and it writes no cache file. *)
Theorem cached_run_ignores_endpoint (w w' : world) :
  (∀ name, name ∈ METRICS.*1 → is_Some (cache w !! name)) →
  cache w' = cache w →
  output_writable w' = output_writable w →
  main w' = main w ∧ Forall (λ e, ¬ cache_write e) (main w).1.
Proof.
  intros Hfull Hc Ho.
  assert (Forall (λ m : string * (string * extras), is_Some (cache w !! m.1)) METRICS)
    as Hms.
  { apply Forall_forall. intros m Hm. apply Hfull, list_elem_of_fmap. by exists m. }
  assert (fetch_all w' = fetch_all w) as Hall
    by (unfold fetch_all; by apply foldl_fetch_step_cached).
  split; [unfold main; by rewrite Hall, Ho|].
  assert (METRICS ≫= written_by w = []) as Hnone.
  { clear Hfull. induction Hms as [|m ms Hm _ IH]; [done|].
    by rewrite bind_cons, (written_by_cached w m Hm), IH. }
  destruct (main_spec w) as [[_ ->]|(merged & final & _ & _ & _ & ->)];
    rewrite Hnone; [done|].
  destruct (output_writable w); [|done]. cbn [fst app].
  apply Forall_singleton. by intros [].
Qed.

Lemma cached_run_ignores_endpoint_witness :
  main offline_world = main cached_world
  ∧ Forall (λ e, ¬ cache_write e) (main cached_world).1.
Proof.
  apply (cached_run_ignores_endpoint cached_world offline_world);
    [|reflexivity..].
  apply (proj1 (Forall_forall _ _)). by_evaluation.
Defined.

End RunMoreTheorems.
